(** * k8sx: cross-context, cross-namespace resource search

    A shallow embedding of the search engine of k8sx (package [pkg], the
    aggregate and per-scope searches, and package [cmd], the command-line
    entry points that resolve the namespace list), together with the
    properties of its specification.

    The cluster API and the kubeconfig loader are external collaborators.
    They are modelled as a read-only snapshot: every call is a function of
    its arguments, and answers either with a value or with an error. The
    deadline of the Go context is not represented apart from that: a call
    that runs out of time is a call that answers with an error. *)

From stdpp Require Import base option list strings gmap.
From Stdlib Require Import ZArith Bool Ascii.

Open Scope string_scope.
Open Scope Z_scope.

(** ** Go values *)

(** A slice returned by a function: [None] is Go's [nil] slice, [Some l] a
    slice that was allocated ([[]T{}] is [Some []]). *)
Definition slice (A : Type) : Type := option (list A).

Definition len {A : Type} (s : slice A) : nat :=
  match s with
  | None => 0%nat
  | Some l => length l
  end.

(** The elements a [range] loop over the slice visits. *)
Definition elems {A : Type} (s : slice A) : list A :=
  match s with
  | None => []
  | Some l => l
  end.

(** ** Package [strings] *)
Module strings.

(** [strings.Index(s, substr)]: the byte offset of the first occurrence
    of [substr] in [s], or -1. Bytes are compared as they are. *)
Fixpoint IndexFrom (s substr : string) (i : Z) : Z :=
  if String.prefix substr s then i
  else match s with
       | EmptyString => -1
       | String _ s' => IndexFrom s' substr (i + 1)
       end.

Definition Index (s substr : string) : Z := IndexFrom s substr 0.

(** [strings.Contains(s, substr)] is [Index(s, substr) >= 0]. *)
Definition Contains (s substr : string) : bool := 0 <=? Index s substr.

(** [strings.Split(s, sep)] for a separator of one byte, the form the
    program uses: the pieces of [s] between the occurrences of the byte, one
    more than there are occurrences; [Split("", sep)] is one empty piece. *)
Fixpoint Split (s : string) (sep : Ascii.ascii) : list string :=
  match s with
  | EmptyString => [EmptyString]
  | String a s' =>
      if Ascii.eqb a sep then EmptyString :: Split s' sep
      else match Split s' sep with
           | piece :: pieces => String a piece :: pieces
           | [] => [String a EmptyString]
           end
  end.

(** [strings.Join(elems, sep)] *)
Fixpoint Join (elems : list string) (sep : string) : string :=
  match elems with
  | [] => EmptyString
  | [elem] => elem
  | elem :: rest => elem ++ sep ++ Join rest sep
  end.

End strings.

(** ** Errors *)

(** [metav1.StatusReason], the reasons the search distinguishes and a few
    of the others. *)
Inductive StatusReason : Type :=
| StatusReasonUnknown
| StatusReasonUnauthorized
| StatusReasonForbidden
| StatusReasonNotFound
| StatusReasonTimeout
| StatusReasonInternalError.

Global Instance StatusReason_eq_dec : EqDecision StatusReason.
Proof. solve_decision. Defined.

(** A non-nil Go error value. *)
Inductive error_value : Type :=
| StatusError (reason : StatusReason) (code : Z) (message : string)
  (** an API status answer, [*apierrors.StatusError], with the reason and
      the HTTP code of its status *)
| errorString (message : string)
  (** an error without API status: transport failures, [fmt.Errorf]
      without [%w] *)
| wrapError (message : string) (err : error_value)
  (** [fmt.Errorf("message: %w", err)] *)
.

(** [err.Error()]: a wrapping error prints its message, a colon and the
    text of the error it wraps. *)
Fixpoint Error (err : error_value) : string :=
  match err with
  | StatusError _ _ message => message
  | errorString message => message
  | wrapError message err' => message ++ ": " ++ Error err'
  end.

(** A Go [error]: [None] is [nil]. *)
Definition error : Type := option error_value.

(** The answer of an external call: a value, or a non-nil error. *)
Inductive answer (A : Type) : Type :=
| Ok (a : A)
| Failed (err : error_value).
Arguments Ok {A} a.
Arguments Failed {A} err.

Module apierrors.

(** [apierrors.ReasonForError]: the reason of the status error found by
    unwrapping ([errors.As]), [StatusReasonUnknown] without one. *)
Fixpoint ReasonForError (err : error_value) : StatusReason :=
  match err with
  | StatusError reason _ _ => reason
  | errorString _ => StatusReasonUnknown
  | wrapError _ err' => ReasonForError err'
  end.

(** The HTTP code of that status error, 0 without one; with
    [ReasonForError] this is [reasonAndCodeForError]. *)
Fixpoint CodeForError (err : error_value) : Z :=
  match err with
  | StatusError _ code _ => code
  | errorString _ => 0
  | wrapError _ err' => CodeForError err'
  end.

(** [knownReasons] holds every reason but the unknown one. *)
Definition knownReason (reason : StatusReason) : bool :=
  negb (bool_decide (reason = StatusReasonUnknown)).

(** [IsForbidden]: the reason is forbidden, or the reason is not a known one
    and the code is 403. *)
Definition IsForbidden (err : error) : bool :=
  match err with
  | None => false
  | Some e =>
      bool_decide (ReasonForError e = StatusReasonForbidden)
      || (negb (knownReason (ReasonForError e)) && (CodeForError e =? 403))
  end.

(** [IsUnauthorized]: the reason is unauthorized, or the reason is not a
    known one and the code is 401. *)
Definition IsUnauthorized (err : error) : bool :=
  match err with
  | None => false
  | Some e =>
      bool_decide (ReasonForError e = StatusReasonUnauthorized)
      || (negb (knownReason (ReasonForError e)) && (CodeForError e =? 401))
  end.

End apierrors.

(** ** The Kubernetes objects the search reads *)

Module OwnerReference.
Record t : Type := mk { Kind : string; Name : string }.
End OwnerReference.

Module ListOptions.
Record t : Type := mk { Limit : Z }.
(** [metav1.ListOptions{}] *)
Definition zero : t := mk 0.
End ListOptions.

Module PodStatus.
Record t : Type := mk { PodIP : string; HostIP : string }.
End PodStatus.

(** [corev1.Pod]; the fields of the embedded [ObjectMeta] are promoted, as
    in [pod.Name]. *)
Module Pod.
Record t : Type := mk {
  Name : string;
  Namespace : string;
  Labels : gmap string string;
  Annotations : gmap string string;
  OwnerReferences : list OwnerReference.t;
  Status : PodStatus.t
}.
End Pod.

Inductive IntOrString : Type :=
| IntVal (i : Z)
| StrVal (s : string).

Module ServicePort.
Record t : Type := mk { Port : Z; TargetPort : IntOrString; Protocol : string }.
End ServicePort.

(** [corev1.ServiceType] is a string type. *)
Definition ServiceTypeClusterIP : string := "ClusterIP".
Definition ServiceTypeNodePort : string := "NodePort".
Definition ServiceTypeLoadBalancer : string := "LoadBalancer".
Definition ServiceTypeExternalName : string := "ExternalName".

Module ServiceSpec.
Record t : Type := mk {
  ClusterIP : string;
  ExternalIPs : list string;
  Type_ : string;
  Ports : list ServicePort.t;
  Selector : gmap string string
}.
End ServiceSpec.

Module LoadBalancerIngress.
Record t : Type := mk { IP : string; Hostname : string }.
End LoadBalancerIngress.

Module LoadBalancerStatus.
Record t : Type := mk { Ingress : list LoadBalancerIngress.t }.
End LoadBalancerStatus.

Module ServiceStatus.
Record t : Type := mk { LoadBalancer : LoadBalancerStatus.t }.
End ServiceStatus.

Module Service.
Record t : Type := mk {
  Name : string;
  Namespace : string;
  Spec : ServiceSpec.t;
  Status : ServiceStatus.t
}.
End Service.

Module Namespace.
Record t : Type := mk { Name : string; Phase : string }.
End Namespace.

Module ReplicaSet.
Record t : Type := mk {
  Name : string;
  Namespace : string;
  OwnerReferences : list OwnerReference.t
}.
End ReplicaSet.

(** ** The external collaborators *)

(** [kubernetes.Interface], as far as the search uses it. *)
Module Clientset.
Record t : Type := mk {
  (** [CoreV1().Pods(namespace).List(ctx, opts)] *)
  ListPods : string -> ListOptions.t -> answer (list Pod.t);
  (** [CoreV1().Services(namespace).List(ctx, opts)] *)
  ListServices : string -> ListOptions.t -> answer (list Service.t);
  (** [CoreV1().Namespaces().List(ctx, opts)] *)
  ListNamespaces : ListOptions.t -> answer (list Namespace.t);
  (** [AppsV1().ReplicaSets(namespace).Get(ctx, name, opts)] *)
  GetReplicaSet : string -> string -> answer ReplicaSet.t
}.
End Clientset.

Module Context.
Record t : Type := mk { Cluster : string; AuthInfo : string }.
End Context.

(** [api.Config]. [Contexts] is a Go map from context names to contexts.
    The order of the results depends on the order in which [range] walks
    the map, which Go leaves open: the list holds the entries in the order
    of this run's iteration. *)
Module Config.
Record t : Type := mk {
  Contexts : list (string * Context.t);
  CurrentContext : string
}.
End Config.

Module RestConfig.
Record t : Type := mk { Host : string }.
End RestConfig.

(** What lies outside the program: the files, and the clusters behind the
    contexts. *)
Module World.
Record t : Type := mk {
  (** [clientcmd.LoadFromFile(path)] *)
  LoadFromFile : string -> answer Config.t;
  (** [clientConfig.ClientConfig()] for the loading rules of [path] with
      the current context overridden by [contextName] *)
  ClientConfig : string -> string -> answer RestConfig.t;
  (** [kubernetes.NewForConfig(restConfig)] *)
  NewForConfig : RestConfig.t -> answer Clientset.t
}.
End World.

(** ** Package [pkg]: the search engine *)
Module pkg.

Module K8sClient.
Record t : Type := mk {
  Clientset : Clientset.t;
  Config : option Config.t;
  Namespaces : list string
}.
End K8sClient.

(** A function returning a pointer and an error is a pair of an [option]
    and an [error]. The pair [(None, None)], a nil pointer with a nil error, is
    returned by no function below; where a caller would dereference it the
    embedding returns it unchanged. *)

(** [LoadKubeConfig] loads kubeconfig from the specified path. *)
Definition LoadKubeConfig (w : World.t) (kubeconfigPath : string)
  : option Config.t * error :=
  match World.LoadFromFile w kubeconfigPath with
  | Failed err => (None, Some (wrapError "failed to load kubeconfig" err))
  | Ok config => (Some config, None)
  end.

(** [GetContexts] returns all contexts from kubeconfig. *)
Definition GetContexts (config : Config.t) : list string :=
  map fst (Config.Contexts config).

(** [NewK8sClient] creates a client from kubeconfig path and context. *)
Definition NewK8sClient (w : World.t) (kubeconfigPath contextName : string)
    (namespaces : list string) : option K8sClient.t * error :=
  match LoadKubeConfig w kubeconfigPath with
  | (_, Some err) => (None, Some err)
  | (None, None) => (None, None)
  | (Some config, None) =>
      let contextName :=
        if String.eqb contextName "" then Config.CurrentContext config
        else contextName in
      match World.ClientConfig w kubeconfigPath contextName with
      | Failed err => (None, Some (wrapError "failed to create rest config" err))
      | Ok restConfig =>
          match World.NewForConfig w restConfig with
          | Failed err => (None, Some (wrapError "failed to create clientset" err))
          | Ok clientset =>
              (Some (K8sClient.mk clientset (Some config) namespaces), None)
          end
      end
  end.

Module PodInfo.
Record t : Type := mk {
  Name : string;
  Namespace : string;
  PodIP : string;
  HostIP : string;
  OwnerKind : string;
  OwnerName : string;
  Labels : gmap string string;
  Annotations : gmap string string
}.
End PodInfo.

Module ServiceInfo.
Record t : Type := mk {
  Name : string;
  Namespace : string;
  ClusterIP : string;
  ExternalIPs : list string;
  Type_ : string;
  Ports : list ServicePort.t;
  Selector : gmap string string
}.
End ServiceInfo.

(** [ValidateIP] validates if a string is a valid IP address. [ParseIP] is
    [net.ParseIP] of the Go library, [None] for its [nil]. *)
Definition ValidateIP (ParseIP : string -> option (list Z)) (ip : string) : bool :=
  match ParseIP ip with
  | Some _ => true
  | None => false
  end.

(** [getOwnerInfo] extracts owner information from pod. *)
Definition getOwnerInfo (pod : Pod.t) : string * string :=
  match Pod.OwnerReferences pod with
  | [] => ("", "")
  | owner :: _ => (OwnerReference.Kind owner, OwnerReference.Name owner)
  end.

(** [IsPermissionError] checks if an error is a permission/forbidden error. *)
Definition IsPermissionError (err : error) : bool :=
  apierrors.IsForbidden err || apierrors.IsUnauthorized err.

Definition isPermissionError (err : error) : bool := IsPermissionError err.

(** The [PodInfo] literal both searches append for a matching pod. *)
Definition newPodInfo (pod : Pod.t) : PodInfo.t :=
  let '(ownerKind, ownerName) := getOwnerInfo pod in
  {| PodInfo.Name := Pod.Name pod;
     PodInfo.Namespace := Pod.Namespace pod;
     PodInfo.PodIP := PodStatus.PodIP (Pod.Status pod);
     PodInfo.HostIP := PodStatus.HostIP (Pod.Status pod);
     PodInfo.OwnerKind := ownerKind;
     PodInfo.OwnerName := ownerName;
     PodInfo.Labels := Pod.Labels pod;
     PodInfo.Annotations := Pod.Annotations pod |}.

(** The [ServiceInfo] literal [SearchByIP] appends for a matching service. *)
Definition newServiceInfo (svc : Service.t) : ServiceInfo.t :=
  {| ServiceInfo.Name := Service.Name svc;
     ServiceInfo.Namespace := Service.Namespace svc;
     ServiceInfo.ClusterIP := ServiceSpec.ClusterIP (Service.Spec svc);
     ServiceInfo.ExternalIPs := ServiceSpec.ExternalIPs (Service.Spec svc);
     ServiceInfo.Type_ := ServiceSpec.Type_ (Service.Spec svc);
     ServiceInfo.Ports := ServiceSpec.Ports (Service.Spec svc);
     ServiceInfo.Selector := ServiceSpec.Selector (Service.Spec svc) |}.

(** [for _, pod := range podList.Items] of [SearchByIP]; [pods] is the
    slice being appended to. *)
Fixpoint rangePodsByIP (ip : string) (items : list Pod.t)
    (pods : list PodInfo.t) : list PodInfo.t :=
  match items with
  | [] => pods
  | pod :: items' =>
      if String.eqb (PodStatus.PodIP (Pod.Status pod)) ip
         || String.eqb (PodStatus.HostIP (Pod.Status pod)) ip
      then rangePodsByIP ip items' (pods ++ [newPodInfo pod])
      else rangePodsByIP ip items' pods
  end.

(** [for _, externalIP := range svc.Spec.ExternalIPs], leaving at the first
    hit. *)
Fixpoint rangeExternalIPs (ip : string) (externalIPs : list string)
    (matched : bool) : bool :=
  match externalIPs with
  | [] => matched
  | externalIP :: rest =>
      if String.eqb externalIP ip then true
      else rangeExternalIPs ip rest matched
  end.

(** [for _, ingress := range svc.Status.LoadBalancer.Ingress], leaving at
    the first hit. *)
Fixpoint rangeIngress (ip : string) (ingresses : list LoadBalancerIngress.t)
    (matched : bool) : bool :=
  match ingresses with
  | [] => matched
  | ingress :: rest =>
      if String.eqb (LoadBalancerIngress.IP ingress) ip then true
      else rangeIngress ip rest matched
  end.

(** The value of [matched] after the three checks of [SearchByIP] on one
    service. *)
Definition serviceMatched (ip : string) (svc : Service.t) : bool :=
  let matched := false in
  let matched :=
    if String.eqb (ServiceSpec.ClusterIP (Service.Spec svc)) ip then true
    else matched in
  let matched :=
    rangeExternalIPs ip (ServiceSpec.ExternalIPs (Service.Spec svc)) matched in
  let matched :=
    if String.eqb (ServiceSpec.Type_ (Service.Spec svc)) ServiceTypeLoadBalancer
    then rangeIngress ip
           (LoadBalancerStatus.Ingress
              (ServiceStatus.LoadBalancer (Service.Status svc))) matched
    else matched in
  matched.

(** [for _, svc := range svcList.Items] of [SearchByIP]. *)
Fixpoint rangeServicesByIP (ip : string) (items : list Service.t)
    (services : list ServiceInfo.t) : list ServiceInfo.t :=
  match items with
  | [] => services
  | svc :: items' =>
      if serviceMatched ip svc
      then rangeServicesByIP ip items' (services ++ [newServiceInfo svc])
      else rangeServicesByIP ip items' services
  end.

(** [for _, namespace := range c.Namespaces] of [SearchByIP], from the
    current values of [pods] and [services]. *)
Fixpoint rangeNamespacesByIP (clientset : Clientset.t) (ip : string)
    (namespaces : list string) (pods : list PodInfo.t)
    (services : list ServiceInfo.t)
  : slice PodInfo.t * slice ServiceInfo.t * error :=
  match namespaces with
  | [] => (Some pods, Some services, None)
  | namespace :: rest =>
      match Clientset.ListPods clientset namespace ListOptions.zero with
      | Failed err =>
          if isPermissionError (Some err)
          then rangeNamespacesByIP clientset ip rest pods services
          else (None, None,
                Some (wrapError ("failed to list pods in namespace " ++ namespace) err))
      | Ok podItems =>
          let pods := rangePodsByIP ip podItems pods in
          match Clientset.ListServices clientset namespace ListOptions.zero with
          | Failed err =>
              if isPermissionError (Some err)
              then rangeNamespacesByIP clientset ip rest pods services
              else (None, None,
                    Some (wrapError
                            ("failed to list services in namespace " ++ namespace) err))
          | Ok svcItems =>
              let services := rangeServicesByIP ip svcItems services in
              rangeNamespacesByIP clientset ip rest pods services
          end
      end
  end.

(** [SearchByIP] searches for resources by IP address (pod IP, service IP,
    or LoadBalancer IP). *)
Definition SearchByIP (c : K8sClient.t) (ip : string)
  : slice PodInfo.t * slice ServiceInfo.t * error :=
  rangeNamespacesByIP (K8sClient.Clientset c) ip (K8sClient.Namespaces c) [] [].

(** [for _, pod := range podList.Items] of [SearchByName]. *)
Fixpoint rangePodsByName (name : string) (items : list Pod.t)
    (pods : list PodInfo.t) : list PodInfo.t :=
  match items with
  | [] => pods
  | pod :: items' =>
      if strings.Contains (Pod.Name pod) name
      then rangePodsByName name items' (pods ++ [newPodInfo pod])
      else rangePodsByName name items' pods
  end.

(** [for _, namespace := range c.Namespaces] of [SearchByName]. *)
Fixpoint rangeNamespacesByName (clientset : Clientset.t) (name : string)
    (namespaces : list string) (pods : list PodInfo.t)
  : slice PodInfo.t * error :=
  match namespaces with
  | [] => (Some pods, None)
  | namespace :: rest =>
      match Clientset.ListPods clientset namespace ListOptions.zero with
      | Failed err =>
          if isPermissionError (Some err)
          then rangeNamespacesByName clientset name rest pods
          else (None,
                Some (wrapError ("failed to list pods in namespace " ++ namespace) err))
      | Ok podItems =>
          rangeNamespacesByName clientset name rest
            (rangePodsByName name podItems pods)
      end
  end.

(** [SearchByName] searches for pods by name (supports partial match). *)
Definition SearchByName (c : K8sClient.t) (name : string)
  : slice PodInfo.t * error :=
  rangeNamespacesByName (K8sClient.Clientset c) name (K8sClient.Namespaces c) [].

(** [for _, owner := range rs.OwnerReferences] of
    [GetDeploymentByReplicaSet]: returns at the first owner of kind
    Deployment, falls through to the final error otherwise. *)
Fixpoint rangeOwners (owners : list OwnerReference.t) : string * error :=
  match owners with
  | [] => ("", Some (errorString "no deployment found for replicaset"))
  | owner :: rest =>
      if String.eqb (OwnerReference.Kind owner) "Deployment"
      then (OwnerReference.Name owner, None)
      else rangeOwners rest
  end.

(** [GetDeploymentByReplicaSet] gets deployment name from ReplicaSet. *)
Definition GetDeploymentByReplicaSet (c : K8sClient.t)
    (namespace replicaSetName : string) : string * error :=
  match Clientset.GetReplicaSet (K8sClient.Clientset c) namespace replicaSetName with
  | Failed err => ("", Some (wrapError "failed to get replicaset" err))
  | Ok rs =>
      if (length (ReplicaSet.OwnerReferences rs) =? 0)%nat
      then ("", Some (errorString "replicaset has no owner"))
      else rangeOwners (ReplicaSet.OwnerReferences rs)
  end.

Module SearchResultWithContext.
Record t : Type := mk {
  Context : string;
  Namespace : string;
  Pods : slice PodInfo.t;
  Services : slice ServiceInfo.t
}.
End SearchResultWithContext.

(** The namespaces one context is searched in ([namespacesToSearch] of both
    aggregate searches): the given list when it is not empty, the names the
    context's API lists otherwise; [None] when that listing fails and the
    loop [continue]s with the next context. *)
Definition namespacesToSearch (client : K8sClient.t) (namespaces : list string)
  : option (list string) :=
  if (0 <? length namespaces)%nat then Some namespaces
  else
    match Clientset.ListNamespaces (K8sClient.Clientset client) ListOptions.zero with
    | Failed _ => None
    | Ok items => Some (map Namespace.Name items)
    end.

(** [for _, nsName := range namespacesToSearch] of [SearchByIPAllContexts]. *)
Fixpoint rangeScopesByIP (client : K8sClient.t) (contextName ip : string)
    (nsNames : list string) (results : list SearchResultWithContext.t)
  : list SearchResultWithContext.t :=
  match nsNames with
  | [] => results
  | nsName :: rest =>
      let client :=
        K8sClient.mk (K8sClient.Clientset client) (K8sClient.Config client) [nsName] in
      match SearchByIP client ip with
      | (_, _, Some _) => rangeScopesByIP client contextName ip rest results
      | (pods, services, None) =>
          if (0 <? len pods)%nat || (0 <? len services)%nat
          then rangeScopesByIP client contextName ip rest
                 (results ++ [SearchResultWithContext.mk contextName nsName pods services])
          else rangeScopesByIP client contextName ip rest results
      end
  end.

(** [for _, contextName := range contexts] of [SearchByIPAllContexts]. *)
Fixpoint rangeContextsByIP (w : World.t) (kubeconfigPath ip : string)
    (namespaces : list string) (contexts : list string)
    (results : list SearchResultWithContext.t)
  : list SearchResultWithContext.t :=
  match contexts with
  | [] => results
  | contextName :: rest =>
      match NewK8sClient w kubeconfigPath contextName [] with
      | (Some client, None) =>
          match namespacesToSearch client namespaces with
          | None => rangeContextsByIP w kubeconfigPath ip namespaces rest results
          | Some nsNames =>
              rangeContextsByIP w kubeconfigPath ip namespaces rest
                (rangeScopesByIP client contextName ip nsNames results)
          end
      | _ => rangeContextsByIP w kubeconfigPath ip namespaces rest results
      end
  end.

(** [SearchByIPAllContexts] searches for resources by IP across all contexts
    and all (or specified) namespaces. *)
Definition SearchByIPAllContexts (w : World.t) (kubeconfigPath ip : string)
    (namespaces : list string) : slice SearchResultWithContext.t * error :=
  match LoadKubeConfig w kubeconfigPath with
  | (_, Some err) => (None, Some err)
  | (None, None) => (None, None)
  | (Some config, None) =>
      let results := [] in
      let contexts := GetContexts config in
      (Some (rangeContextsByIP w kubeconfigPath ip namespaces contexts results),
       None)
  end.

Module PodResultWithContext.
Record t : Type := mk {
  Context : string;
  Namespace : string;
  Pods : slice PodInfo.t
}.
End PodResultWithContext.

(** [for _, nsName := range namespacesToSearch] of [SearchByNameAllContexts]. *)
Fixpoint rangeScopesByName (client : K8sClient.t) (contextName name : string)
    (nsNames : list string) (results : list PodResultWithContext.t)
  : list PodResultWithContext.t :=
  match nsNames with
  | [] => results
  | nsName :: rest =>
      let client :=
        K8sClient.mk (K8sClient.Clientset client) (K8sClient.Config client) [nsName] in
      match SearchByName client name with
      | (_, Some _) => rangeScopesByName client contextName name rest results
      | (pods, None) =>
          if (0 <? len pods)%nat
          then rangeScopesByName client contextName name rest
                 (results ++ [PodResultWithContext.mk contextName nsName pods])
          else rangeScopesByName client contextName name rest results
      end
  end.

(** [for _, contextName := range contexts] of [SearchByNameAllContexts]. *)
Fixpoint rangeContextsByName (w : World.t) (kubeconfigPath name : string)
    (namespaces : list string) (contexts : list string)
    (results : list PodResultWithContext.t)
  : list PodResultWithContext.t :=
  match contexts with
  | [] => results
  | contextName :: rest =>
      match NewK8sClient w kubeconfigPath contextName [] with
      | (Some client, None) =>
          match namespacesToSearch client namespaces with
          | None => rangeContextsByName w kubeconfigPath name namespaces rest results
          | Some nsNames =>
              rangeContextsByName w kubeconfigPath name namespaces rest
                (rangeScopesByName client contextName name nsNames results)
          end
      | _ => rangeContextsByName w kubeconfigPath name namespaces rest results
      end
  end.

(** [SearchByNameAllContexts] searches for pods by name across all contexts
    and all (or specified) namespaces. *)
Definition SearchByNameAllContexts (w : World.t) (kubeconfigPath name : string)
    (namespaces : list string) : slice PodResultWithContext.t * error :=
  match LoadKubeConfig w kubeconfigPath with
  | (_, Some err) => (None, Some err)
  | (None, None) => (None, None)
  | (Some config, None) =>
      let results := [] in
      let contexts := GetContexts config in
      (Some (rangeContextsByName w kubeconfigPath name namespaces contexts results),
       None)
  end.

End pkg.

(** ** Package [cmd]: the command-line entry points

    Only what decides the returned error and the namespace list handed to
    the search is embedded; printing and table rendering are left out. *)
Module cmd.

(** [for _, ns := range namespaceList.Items] of [GetAccessibleNamespaces]:
    list one pod in the namespace, keep its name when the call succeeds. *)
Fixpoint rangeProbe (clientset : Clientset.t) (items : list Namespace.t)
    (accessible : list string) : list string :=
  match items with
  | [] => accessible
  | ns :: rest =>
      match Clientset.ListPods clientset (Namespace.Name ns) (ListOptions.mk 1) with
      | Ok _ => rangeProbe clientset rest (accessible ++ [Namespace.Name ns])
      | Failed _ => rangeProbe clientset rest accessible
      end
  end.

(** [GetAccessibleNamespaces] returns a list of namespaces the user has
    permission to access. *)
Definition GetAccessibleNamespaces (w : World.t) (kubeconfigPath contextName : string)
  : slice string * error :=
  match pkg.NewK8sClient w kubeconfigPath contextName [] with
  | (_, Some err) => (None, Some err)
  | (None, None) => (None, None)
  | (Some client, None) =>
      match Clientset.ListNamespaces (pkg.K8sClient.Clientset client) ListOptions.zero with
      | Failed err => (None, Some err)
      | Ok items =>
          (Some (rangeProbe (pkg.K8sClient.Clientset client) items []), None)
      end
  end.

(** The block [if len(namespaces) == 0 { ... }] of both aggregate entry
    points: the value of [namespaces] after it. *)
Definition discoverNamespaces (w : World.t) (kubeconfigPath : string)
    (namespaces : list string) : list string :=
  if (length namespaces =? 0)%nat
  then
    match GetAccessibleNamespaces w kubeconfigPath "" with
    | (accessible, None) =>
        if (0 <? len accessible)%nat then elems accessible else namespaces
    | (_, Some _) => namespaces
    end
  else namespaces.

(** [SearchK8sByIPAllContexts] searches Kubernetes resources by IP across
    all contexts and all (or specified) namespaces. *)
Definition SearchK8sByIPAllContexts (ParseIP : string -> option (list Z))
    (w : World.t) (kubeconfigPath ip : string) (namespaces : list string) : error :=
  if negb (pkg.ValidateIP ParseIP ip)
  then Some (errorString ("invalid IP address: " ++ ip))
  else
    let namespaces := discoverNamespaces w kubeconfigPath namespaces in
    match pkg.SearchByIPAllContexts w kubeconfigPath ip namespaces with
    | (_, Some err) => Some err
    | (_, None) => None
    end.

(** [SearchK8sByNameAllContexts] searches Kubernetes pods by name across all
    contexts and all (or specified) namespaces. *)
Definition SearchK8sByNameAllContexts (w : World.t) (kubeconfigPath name : string)
    (namespaces : list string) : error :=
  if String.eqb name ""
  then Some (errorString "name cannot be empty")
  else
    let namespaces := discoverNamespaces w kubeconfigPath namespaces in
    match pkg.SearchByNameAllContexts w kubeconfigPath name namespaces with
    | (_, Some err) => Some err
    | (_, None) => None
    end.

Module K8sSearchConfig.
Record t : Type := mk {
  KubeconfigPath : string;
  Namespaces : list string;
  ContextName : string
}.
End K8sSearchConfig.

(** [SearchK8sByName] searches Kubernetes pods by name. *)
Definition SearchK8sByName (w : World.t) (config : K8sSearchConfig.t) (name : string)
  : error :=
  if String.eqb name ""
  then Some (errorString "name cannot be empty")
  else
    match pkg.NewK8sClient w (K8sSearchConfig.KubeconfigPath config)
            (K8sSearchConfig.ContextName config) (K8sSearchConfig.Namespaces config) with
    | (_, Some err) => Some err
    | (None, None) => None
    | (Some client, None) =>
        match pkg.SearchByName client name with
        | (_, Some err) => Some err
        | (_, None) => None
        end
    end.

(** The entry points below are embedded with what they report: beside the
    returned error, the values they hand to the table and to the summary
    lines, without colours and layout. The counters are Go [int]s that count
    elements of slices held in memory; they are natural numbers here. *)

(** [ValidateIP] is a wrapper for [k8s.ValidateIP] for use in CLI. *)
Definition ValidateIP (ParseIP : string -> option (list Z)) (ip : string) : bool :=
  pkg.ValidateIP ParseIP ip.

(** [for _, contextName := range contexts] of [ListK8sContexts]; a row is
    the context name and the mark of the current context. *)
Fixpoint rangeContextRows (currentContext : string) (contexts : list string)
    (rows : list (string * string)) : list (string * string) :=
  match contexts with
  | [] => rows
  | contextName :: rest =>
      let isCurrent := "" in
      let isCurrent :=
        if String.eqb contextName currentContext then "*" else isCurrent in
      rangeContextRows currentContext rest (rows ++ [(contextName, isCurrent)])
  end.

(** [ListK8sContexts] lists all contexts in kubeconfig: the rows below the
    header row, [None] where no table is printed, and the returned error. *)
Definition ListK8sContexts (w : World.t) (kubeconfigPath : string)
  : option (list (string * string)) * error :=
  match pkg.LoadKubeConfig w kubeconfigPath with
  | (_, Some err) => (None, Some err)
  | (None, None) => (None, None)
  | (Some config, None) =>
      let contexts := pkg.GetContexts config in
      if (length contexts =? 0)%nat then (None, None)
      else (Some (rangeContextRows (Config.CurrentContext config) contexts []), None)
  end.

(** [SearchK8sByIP] searches Kubernetes resources by IP address. *)
Definition SearchK8sByIP (ParseIP : string -> option (list Z)) (w : World.t)
    (config : K8sSearchConfig.t) (ip : string) : error :=
  if negb (pkg.ValidateIP ParseIP ip)
  then Some (errorString ("invalid IP address: " ++ ip))
  else
    match pkg.NewK8sClient w (K8sSearchConfig.KubeconfigPath config)
            (K8sSearchConfig.ContextName config) (K8sSearchConfig.Namespaces config) with
    | (_, Some err) => Some err
    | (None, None) => None
    | (Some client, None) =>
        match pkg.SearchByIP client ip with
        | (_, _, Some err) => Some err
        | (_, _, None) => None
        end
    end.

(** The owner column of the single-context searches: the owner name, with
    the deployment behind it when the owner is a ReplicaSet whose
    deployment can be resolved. *)
Definition ownerInfo (client : pkg.K8sClient.t) (pod : pkg.PodInfo.t) : string :=
  let ownerInfo := pkg.PodInfo.OwnerName pod in
  if String.eqb (pkg.PodInfo.OwnerKind pod) "ReplicaSet"
  then
    match pkg.GetDeploymentByReplicaSet client (pkg.PodInfo.Namespace pod)
            (pkg.PodInfo.OwnerName pod) with
    | (deploymentName, None) =>
        pkg.PodInfo.OwnerName pod ++ " (Deployment: " ++ deploymentName ++ ")"
    | (_, Some _) => ownerInfo
    end
  else ownerInfo.

(** The owner column of the aggregate searches, which build a client for
    the context of the result first. *)
Definition ownerInfoAllContexts (w : World.t) (kubeconfigPath : string)
    (resultContext resultNamespace : string) (pod : pkg.PodInfo.t) : string :=
  let ownerInfo := pkg.PodInfo.OwnerName pod in
  if String.eqb (pkg.PodInfo.OwnerKind pod) "ReplicaSet"
  then
    match pkg.NewK8sClient w kubeconfigPath resultContext [resultNamespace] with
    | (Some client, None) =>
        match pkg.GetDeploymentByReplicaSet client (pkg.PodInfo.Namespace pod)
                (pkg.PodInfo.OwnerName pod) with
        | (deploymentName, None) =>
            pkg.PodInfo.OwnerName pod ++ " (Deployment: " ++ deploymentName ++ ")"
        | (_, Some _) => ownerInfo
        end
    | _ => ownerInfo
    end
  else ownerInfo.






Module NamespacePermission.
Record t : Type := mk {
  Name : string;
  HasAccess : bool;
  Status : string;
  Error_ : string
}.
End NamespacePermission.

(** [for _, ns := range namespaceList.Items] of [ListK8sNamespaces]: the
    probe of one namespace and its entry. *)
Fixpoint rangePermissions (clientset : Clientset.t) (items : list Namespace.t)
    (permissions : list NamespacePermission.t) : list NamespacePermission.t :=
  match items with
  | [] => permissions
  | ns :: rest =>
      let perm :=
        match Clientset.ListPods clientset (Namespace.Name ns) (ListOptions.mk 1) with
        | Failed err =>
            NamespacePermission.mk (Namespace.Name ns) false (Namespace.Phase ns)
              (if pkg.IsPermissionError (Some err) then "Permission Denied"
               else Error err)
        | Ok _ =>
            NamespacePermission.mk (Namespace.Name ns) true (Namespace.Phase ns) ""
        end in
      rangePermissions clientset rest (permissions ++ [perm])
  end.

(** [for _, perm := range permissions], the loop that fills the table:
    the two counters. *)
Fixpoint rangeAccessCounts (permissions : list NamespacePermission.t)
    (accessibleCount deniedCount : nat) : nat * nat :=
  match permissions with
  | [] => (accessibleCount, deniedCount)
  | perm :: rest =>
      if NamespacePermission.HasAccess perm
      then rangeAccessCounts rest (accessibleCount + 1)%nat deniedCount
      else rangeAccessCounts rest accessibleCount (deniedCount + 1)%nat
  end.

(** [for _, perm := range permissions], the loop that collects the
    accessible names. *)
Fixpoint rangeAccessible (permissions : list NamespacePermission.t)
    (accessible : list string) : list string :=
  match permissions with
  | [] => accessible
  | perm :: rest =>
      if NamespacePermission.HasAccess perm
      then rangeAccessible rest (accessible ++ [NamespacePermission.Name perm])
      else rangeAccessible rest accessible
  end.

Module NamespaceReport.
Record t : Type := mk {
  permissions : list NamespacePermission.t;
  accessibleCount : nat;
  deniedCount : nat;
  (** the line printed for use with the namespaces flag, when there is an
      accessible namespace *)
  flagLine : option string
}.
End NamespaceReport.

(** [ListK8sNamespaces] lists all namespaces and shows which ones you have
    permission to access: what it reports, [None] where it returns before
    the table, and the returned error. *)
Definition ListK8sNamespaces (w : World.t) (kubeconfigPath contextName : string)
  : option NamespaceReport.t * error :=
  match pkg.NewK8sClient w kubeconfigPath contextName [] with
  | (_, Some err) => (None, Some err)
  | (None, None) => (None, None)
  | (Some client, None) =>
      match Clientset.ListNamespaces (pkg.K8sClient.Clientset client) ListOptions.zero with
      | Failed err => (None, Some err)
      | Ok items =>
          if (length items =? 0)%nat then (None, None)
          else
            let permissions :=
              rangePermissions (pkg.K8sClient.Clientset client) items [] in
            let '(accessibleCount, deniedCount) := rangeAccessCounts permissions 0 0 in
            let flagLine :=
              if (0 <? accessibleCount)%nat
              then Some (strings.Join (rangeAccessible permissions []) ",")
              else None in
            (Some (NamespaceReport.mk permissions accessibleCount deniedCount flagLine),
             None)
      end
  end.

End cmd.

(** ** Package [main]: the commands *)
Module main.

(** The body shared by the root command and the command [s]: an IP query
    goes to the IP search, any other query to the name search. *)
Definition search (ParseIP : string -> option (list Z)) (w : World.t)
    (kubeconfigPath : string) (namespaces : list string) (query : string) : error :=
  if cmd.ValidateIP ParseIP query
  then cmd.SearchK8sByIPAllContexts ParseIP w kubeconfigPath query namespaces
  else cmd.SearchK8sByNameAllContexts w kubeconfigPath query namespaces.

(** [RunE] of the root command; [help] is what [cmd.Help()] returns. The
    command takes at most one argument. *)
Definition rootCmdRunE (ParseIP : string -> option (list Z)) (help : error)
    (w : World.t) (kubeconfigPath : string) (namespaces : list string)
    (args : list string) : error :=
  match args with
  | [] => help
  | query :: _ => search ParseIP w kubeconfigPath namespaces query
  end.

(** The default of the namespaces flag that [init] computes from the value
    of K8S_SEARCH_NAMESPACES; [TrimSpace] is [strings.TrimSpace]. A nil
    slice is the empty list. *)
Definition defaultNamespaces (TrimSpace : string -> string) (envNamespaces : string)
  : list string :=
  if negb (String.eqb envNamespaces "")
  then map TrimSpace (strings.Split envNamespaces ","%char)
  else [].

End main.

Import pkg.
Open Scope list_scope.

(** ** The vocabulary of the properties *)

(** The client of the aggregate loops after [client.Namespaces = ...]. *)
Definition withNamespaces (client : K8sClient.t) (namespaces : list string)
  : K8sClient.t :=
  K8sClient.mk (K8sClient.Clientset client) (K8sClient.Config client) namespaces.

(** An error that is neither forbidden nor unauthorized. *)
Definition Surfaced (err : error_value) : Prop :=
  isPermissionError (Some err) = false.

(** A list call of the IP search in namespace [ns] that is made and fails:
    the pod list, or the service list, which is only called after the pod
    list succeeded. The string is the resource kind in the error message. *)
Inductive ListCallFails (cs : Clientset.t) (ns : string)
  : string -> error_value -> Prop :=
| PodListFails (err : error_value) :
    Clientset.ListPods cs ns ListOptions.zero = Failed err ->
    ListCallFails cs ns "pods" err
| ServiceListFails (items : list Pod.t) (err : error_value) :
    Clientset.ListPods cs ns ListOptions.zero = Ok items ->
    Clientset.ListServices cs ns ListOptions.zero = Failed err ->
    ListCallFails cs ns "services" err.

(** The pods of the namespaces whose pod list succeeds, in listing order. *)
Definition podsListed (cs : Clientset.t) (namespaces : list string) : list Pod.t :=
  ns ← namespaces;
  match Clientset.ListPods cs ns ListOptions.zero with
  | Ok items => items
  | Failed _ => []
  end.

(** The services of the namespaces in which the pod list and then the
    service list succeed, in listing order. *)
Definition servicesListed (cs : Clientset.t) (namespaces : list string)
  : list Service.t :=
  ns ← namespaces;
  match Clientset.ListPods cs ns ListOptions.zero,
        Clientset.ListServices cs ns ListOptions.zero with
  | Ok _, Ok items => items
  | _, _ => []
  end.

(** The pod carries the address. *)
Definition PodHasIP (ip : string) (pod : Pod.t) : Prop :=
  PodStatus.PodIP (Pod.Status pod) = ip \/ PodStatus.HostIP (Pod.Status pod) = ip.

(** The service carries the address: as cluster IP, as an external IP, or,
    for a service of type LoadBalancer, as the IP of an ingress point. *)
Definition ServiceHasIP (ip : string) (svc : Service.t) : Prop :=
  ServiceSpec.ClusterIP (Service.Spec svc) = ip
  \/ ip ∈ ServiceSpec.ExternalIPs (Service.Spec svc)
  \/ (ServiceSpec.Type_ (Service.Spec svc) = ServiceTypeLoadBalancer
      /\ ip ∈ map LoadBalancerIngress.IP
                (LoadBalancerStatus.Ingress
                   (ServiceStatus.LoadBalancer (Service.Status svc)))).

(** [sub] occurs in [s] as a contiguous run of bytes. *)
Definition IsSubstring (sub s : string) : Prop :=
  exists before after : string, s = (before ++ sub ++ after)%string.

Global Instance PodHasIP_dec ip pod : Decision (PodHasIP ip pod).
Proof. unfold PodHasIP. apply _. Defined.

Global Instance ServiceHasIP_dec ip svc : Decision (ServiceHasIP ip svc).
Proof. unfold ServiceHasIP. apply _. Defined.

(** Every list call that fails in these namespaces fails on permissions. *)
Definition OnlyPermissionFailures (cs : Clientset.t) (namespaces : list string)
  : Prop :=
  forall ns kind err,
    ns ∈ namespaces -> ListCallFails cs ns kind err ->
    isPermissionError (Some err) = true.

Arguments podsListed : simpl never.
Arguments servicesListed : simpl never.

(** Every pod list that fails in these namespaces fails on permissions. *)
Definition OnlyPermissionPodFailures (cs : Clientset.t) (namespaces : list string)
  : Prop :=
  forall ns err,
    ns ∈ namespaces ->
    Clientset.ListPods cs ns ListOptions.zero = Failed err ->
    isPermissionError (Some err) = true.

(** What one scope adds to the results of [SearchByIPAllContexts]: its
    result when the search of the scope returns without error and found
    something, nothing otherwise. *)
Definition scopeResultByIP (client : K8sClient.t) (contextName ip nsName : string)
  : list SearchResultWithContext.t :=
  match SearchByIP (withNamespaces client [nsName]) ip with
  | (_, _, Some _) => []
  | (pods, services, None) =>
      if (0 <? len pods)%nat || (0 <? len services)%nat
      then [SearchResultWithContext.mk contextName nsName pods services]
      else []
  end.

Definition scopeResultByName (client : K8sClient.t) (contextName name nsName : string)
  : list PodResultWithContext.t :=
  match SearchByName (withNamespaces client [nsName]) name with
  | (_, Some _) => []
  | (pods, None) =>
      if (0 <? len pods)%nat
      then [PodResultWithContext.mk contextName nsName pods]
      else []
  end.

(** The namespaces the aggregate searches visit in one context, given the
    namespace list they were called with; [None] when the context is
    skipped. *)
Definition namespacesSearched (w : World.t) (kubeconfigPath : string)
    (namespaces : list string) (contextName : string) : option (list string) :=
  match NewK8sClient w kubeconfigPath contextName [] with
  | (Some client, None) => namespacesToSearch client namespaces
  | _ => None
  end.

(** What one context adds to the results. *)
Definition contextResultsByIP (w : World.t) (kubeconfigPath ip : string)
    (namespaces : list string) (contextName : string)
  : list SearchResultWithContext.t :=
  match NewK8sClient w kubeconfigPath contextName [] with
  | (Some client, None) =>
      match namespacesToSearch client namespaces with
      | Some nsNames => nsNames ≫= scopeResultByIP client contextName ip
      | None => []
      end
  | _ => []
  end.

Definition contextResultsByName (w : World.t) (kubeconfigPath name : string)
    (namespaces : list string) (contextName : string)
  : list PodResultWithContext.t :=
  match NewK8sClient w kubeconfigPath contextName [] with
  | (Some client, None) =>
      match namespacesToSearch client namespaces with
      | Some nsNames => nsNames ≫= scopeResultByName client contextName name
      | None => []
      end
  | _ => []
  end.

(** The scopes, pairs of a context and a namespace, an aggregate search
    visits. *)
Definition scopesSearched (w : World.t) (kubeconfigPath : string)
    (namespaces : list string) (contexts : list string) : list (string * string) :=
  contextName ← contexts;
  match namespacesSearched w kubeconfigPath namespaces contextName with
  | Some nsNames => (fun nsName => (contextName, nsName)) <$> nsNames
  | None => []
  end.

(** The probe of [GetAccessibleNamespaces] succeeds in the namespace:
    listing at most one pod there answers without error. *)
Definition Probe (cs : Clientset.t) (ns : string) : Prop :=
  exists items, Clientset.ListPods cs ns (ListOptions.mk 1) = Ok items.

Global Instance Probe_dec cs ns : Decision (Probe cs ns).
Proof.
  unfold Probe.
  destruct (Clientset.ListPods cs ns (ListOptions.mk 1)) as [items|err].
  - left. by exists items.
  - right. intros [items H]. discriminate.
Defined.

(** Two clients of a cluster that answer the pod and service lists alike. *)
Definition SameLists (cs cs' : Clientset.t) : Prop :=
  Clientset.ListPods cs = Clientset.ListPods cs'
  /\ Clientset.ListServices cs = Clientset.ListServices cs'.

(** Two installations that differ at most in how their clusters answer the
    listing of namespaces and the lookup of ReplicaSets. *)
Definition SameButNamespaceListing (w w' : World.t) : Prop :=
  World.LoadFromFile w = World.LoadFromFile w'
  /\ World.ClientConfig w = World.ClientConfig w'
  /\ forall restConfig,
      match World.NewForConfig w restConfig, World.NewForConfig w' restConfig with
      | Ok cs, Ok cs' => SameLists cs cs'
      | Failed _, Failed _ => True
      | _, _ => False
      end.

(** The name has no comma in it. *)
Definition CommaFree (name : string) : Prop := ~ IsSubstring "," name.

(** ** A sample installation

    Two clusters. Cluster [east] has a namespace [default] with two pods
    and a load-balanced service, a namespace [locked] in which listing pods
    is forbidden although a service lives there, a namespace [audit] with a
    pod in which listing services is unauthorized, and a namespace [broken]
    in which listing pods fails on the transport. Its API lists [default]
    and [locked]. Cluster [west] has one namespace [shop] with one pod and
    no service. *)
Module Sample.

Definition web_pod : Pod.t :=
  Pod.mk "nginx-deployment-abc123" "default" ∅ ∅
    [OwnerReference.mk "ReplicaSet" "nginx-deployment-xyz";
     OwnerReference.mk "DaemonSet" "other"]
    (PodStatus.mk "10.0.0.1" "192.168.1.1").

Definition redis_pod : Pod.t :=
  Pod.mk "redis-pod" "default" ∅ ∅ [] (PodStatus.mk "10.0.0.3" "192.168.1.1").

Definition shop_pod : Pod.t :=
  Pod.mk "shop-0" "shop" ∅ ∅ [] (PodStatus.mk "10.1.0.1" "192.168.2.1").

Definition lb_service : Service.t :=
  Service.mk "lb-service" "default"
    (ServiceSpec.mk "10.96.0.10" ["203.0.113.1"] ServiceTypeLoadBalancer [] ∅)
    (ServiceStatus.mk (LoadBalancerStatus.mk [LoadBalancerIngress.mk "203.0.113.2" ""])).

Definition locked_service : Service.t :=
  Service.mk "vault" "locked"
    (ServiceSpec.mk "10.96.0.20" [] ServiceTypeClusterIP [] ∅)
    (ServiceStatus.mk (LoadBalancerStatus.mk [LoadBalancerIngress.mk "203.0.113.9" ""])).

Definition audit_pod : Pod.t :=
  Pod.mk "auditor" "audit" ∅ ∅ [OwnerReference.mk "StatefulSet" "auditor"]
    (PodStatus.mk "10.0.0.9" "192.168.1.1").

Definition unauthorized : error_value :=
  StatusError StatusReasonUnauthorized 401 "Unauthorized".

Definition forbidden : error_value :=
  StatusError StatusReasonForbidden 403 "pods is forbidden".

Definition refused : error_value := errorString "connection refused".

Definition notFound : error_value :=
  StatusError StatusReasonNotFound 404 "replicasets.apps not found".

Definition east : Clientset.t :=
  {| Clientset.ListPods := fun ns _ =>
       if String.eqb ns "default" then Ok [web_pod; redis_pod]
       else if String.eqb ns "locked" then Failed forbidden
       else if String.eqb ns "audit" then Ok [audit_pod]
       else if String.eqb ns "broken" then Failed refused
       else Ok [];
     Clientset.ListServices := fun ns _ =>
       if String.eqb ns "default" then Ok [lb_service]
       else if String.eqb ns "locked" then Ok [locked_service]
       else if String.eqb ns "audit" then Failed unauthorized
       else Ok [];
     Clientset.ListNamespaces := fun _ =>
       Ok [Namespace.mk "default" "Active"; Namespace.mk "locked" "Active"];
     Clientset.GetReplicaSet := fun ns name =>
       if String.eqb name "nginx-deployment-xyz"
       then Ok (ReplicaSet.mk name ns
                  [OwnerReference.mk "HorizontalPodAutoscaler" "hpa";
                   OwnerReference.mk "Deployment" "nginx-deployment";
                   OwnerReference.mk "Deployment" "second"])
       else if String.eqb name "orphan" then Ok (ReplicaSet.mk name ns [])
       else if String.eqb name "adopted"
       then Ok (ReplicaSet.mk name ns [OwnerReference.mk "Rollout" "canary"])
       else Failed notFound |}.

Definition west : Clientset.t :=
  {| Clientset.ListPods := fun ns _ =>
       if String.eqb ns "shop" then Ok [shop_pod] else Ok [];
     Clientset.ListServices := fun _ _ => Ok [];
     Clientset.ListNamespaces := fun _ => Ok [Namespace.mk "shop" "Active"];
     Clientset.GetReplicaSet := fun _ _ => Failed notFound |}.

Definition config : Config.t :=
  Config.mk [("east", Context.mk "east-cluster" "ops");
             ("gone", Context.mk "gone-cluster" "ops");
             ("west", Context.mk "west-cluster" "ops")]
    "east".

(** The kubeconfig at [/kube/config] names three contexts; the cluster of
    context [gone] cannot be reached. The file [/kube/stale] names the two
    reachable contexts and still has [gone] as its current context. The
    file [/kube/empty] is a valid kubeconfig without contexts; no other file
    exists. *)
Definition world : World.t :=
  {| World.LoadFromFile := fun path =>
       if String.eqb path "/kube/config" then Ok config
       else if String.eqb path "/kube/stale"
       then Ok (Config.mk [("east", Context.mk "east-cluster" "ops");
                           ("west", Context.mk "west-cluster" "ops")] "gone")
       else if String.eqb path "/kube/empty" then Ok (Config.mk [] "")
       else Failed (errorString "no such file or directory");
     World.ClientConfig := fun path contextName =>
       if String.eqb contextName "east" then Ok (RestConfig.mk "https://east:6443")
       else if String.eqb contextName "west" then Ok (RestConfig.mk "https://west:6443")
       else Failed (errorString "context does not exist");
     World.NewForConfig := fun restConfig =>
       if String.eqb (RestConfig.Host restConfig) "https://east:6443" then Ok east
       else Ok west |}.

Definition eastClient (namespaces : list string) : K8sClient.t :=
  K8sClient.mk east (Some config) namespaces.

(** The same installation for a principal who may not list namespaces: the
    clusters answer that listing as forbidden. *)
Definition withoutNamespaceListing (cs : Clientset.t) : Clientset.t :=
  {| Clientset.ListPods := Clientset.ListPods cs;
     Clientset.ListServices := Clientset.ListServices cs;
     Clientset.ListNamespaces := fun _ => Failed forbidden;
     Clientset.GetReplicaSet := Clientset.GetReplicaSet cs |}.

Definition restrictedWorld : World.t :=
  {| World.LoadFromFile := World.LoadFromFile world;
     World.ClientConfig := World.ClientConfig world;
     World.NewForConfig := fun restConfig =>
       match World.NewForConfig world restConfig with
       | Ok cs => Ok (withoutNamespaceListing cs)
       | Failed err => Failed err
       end |}.

(** A stand-in for [net.ParseIP] that knows the addresses of the sample. *)
Definition parseIP (s : string) : option (list Z) :=
  if String.eqb s "10.0.0.1" then Some [10; 0; 0; 1]
  else if String.eqb s "10.1.0.1" then Some [10; 1; 0; 1]
  else if String.eqb s "192.168.1.1" then Some [192; 168; 1; 1]
  else None.

(** A stand-in for [strings.TrimSpace] that strips blanks. *)
Fixpoint trimLeft (s : string) : string :=
  match s with
  | String " " s' => trimLeft s'
  | _ => s
  end.

Fixpoint trimRight (s : string) : string :=
  match s with
  | EmptyString => EmptyString
  | String a s' =>
      match trimRight s' with
      | EmptyString => if Ascii.eqb a " " then EmptyString else String a EmptyString
      | rest => String a rest
      end
  end.

Definition trimSpace (s : string) : string := trimRight (trimLeft s).

End Sample.

(** ** The fixtures of the repository's tests *)
Module Tests.

(** [fake.NewSimpleClientset()] after the objects were created in it: a
    list call answers with the objects of the namespace, in creation
    order. *)
Definition fakeClientset (pods : list Pod.t) (services : list Service.t)
  : Clientset.t :=
  {| Clientset.ListPods := fun ns _ =>
       Ok (List.filter (fun pod => String.eqb (Pod.Namespace pod) ns) pods);
     Clientset.ListServices := fun ns _ =>
       Ok (List.filter (fun svc => String.eqb (Service.Namespace svc) ns) services);
     Clientset.ListNamespaces := fun _ => Ok [];
     Clientset.GetReplicaSet := fun _ name =>
       Failed (StatusError StatusReasonNotFound 404
                 ("replicasets.apps not found: " ++ name)) |}.

Definition noLoadBalancer : ServiceStatus.t :=
  ServiceStatus.mk (LoadBalancerStatus.mk []).

(** [TestSearchByIP] *)
Definition byIP : K8sClient.t :=
  K8sClient.mk
    (fakeClientset
       [Pod.mk "test-pod-1" "default" ∅ ∅ [OwnerReference.mk "ReplicaSet" "test-rs-1"]
          (PodStatus.mk "10.0.0.1" "192.168.1.1");
        Pod.mk "test-pod-2" "test-ns" ∅ ∅ [] (PodStatus.mk "10.0.0.2" "192.168.1.2")]
       [Service.mk "test-service" "default"
          (ServiceSpec.mk "10.96.0.1" [] ServiceTypeClusterIP [] {[ "app" := "test" ]})
          noLoadBalancer])
    None ["default"; "test-ns"].

(** [TestSearchByName] *)
Definition byName : K8sClient.t :=
  K8sClient.mk
    (fakeClientset
       [Pod.mk "nginx-deployment-abc123" "default" ∅ ∅
          [OwnerReference.mk "ReplicaSet" "nginx-deployment-xyz"]
          (PodStatus.mk "10.0.0.1" "192.168.1.1");
        Pod.mk "nginx-deployment-def456" "test-ns" ∅ ∅ []
          (PodStatus.mk "10.0.0.2" "192.168.1.2");
        Pod.mk "redis-pod" "default" ∅ ∅ [] (PodStatus.mk "10.0.0.3" "192.168.1.3")]
       [])
    None ["default"; "test-ns"].

(** [TestSearchByIPWithLoadBalancer] *)
Definition withLoadBalancer : K8sClient.t :=
  K8sClient.mk
    (fakeClientset []
       [Service.mk "lb-service" "default"
          (ServiceSpec.mk "10.96.0.10" ["203.0.113.1"] ServiceTypeLoadBalancer [] ∅)
          (ServiceStatus.mk
             (LoadBalancerStatus.mk [LoadBalancerIngress.mk "203.0.113.2" ""]))])
    None ["default"].

(** What the assertions look at. *)
Definition podNames (result : slice PodInfo.t * slice ServiceInfo.t * error)
  : list string :=
  PodInfo.Name <$> elems (fst (fst result)).

Definition serviceNames (result : slice PodInfo.t * slice ServiceInfo.t * error)
  : list string :=
  ServiceInfo.Name <$> elems (snd (fst result)).

End Tests.

(** ** The repository's tests

    The embedding gives the answers the assertions of the Go tests expect. *)

Example TestGetContexts :
  GetContexts (Config.mk [("context1", Context.mk "" ""); ("context2", Context.mk "" "");
                          ("context3", Context.mk "" "")] "")
  = ["context1"; "context2"; "context3"]
  /\ GetContexts (Config.mk [] "") = [].
Proof. split; reflexivity. Qed.

Example TestSearchByIP :
  (Tests.podNames (SearchByIP Tests.byIP "10.0.0.1") = ["test-pod-1"]
   /\ (PodInfo.OwnerKind <$> elems (fst (fst (SearchByIP Tests.byIP "10.0.0.1"))))
      = ["ReplicaSet"]
   /\ (PodInfo.OwnerName <$> elems (fst (fst (SearchByIP Tests.byIP "10.0.0.1"))))
      = ["test-rs-1"]
   /\ Tests.serviceNames (SearchByIP Tests.byIP "10.0.0.1") = []
   /\ snd (SearchByIP Tests.byIP "10.0.0.1") = None)
  /\ (Tests.podNames (SearchByIP Tests.byIP "10.96.0.1") = []
      /\ Tests.serviceNames (SearchByIP Tests.byIP "10.96.0.1") = ["test-service"]
      /\ snd (SearchByIP Tests.byIP "10.96.0.1") = None)
  /\ (Tests.podNames (SearchByIP Tests.byIP "10.0.0.99") = []
      /\ Tests.serviceNames (SearchByIP Tests.byIP "10.0.0.99") = []
      /\ snd (SearchByIP Tests.byIP "10.0.0.99") = None).
Proof. repeat split; reflexivity. Qed.

Example TestSearchByName :
  len (fst (SearchByName Tests.byName "nginx")) = 2%nat
  /\ len (fst (SearchByName Tests.byName "deployment")) = 2%nat
  /\ (PodInfo.Name <$> elems (fst (SearchByName Tests.byName "redis-pod"))) = ["redis-pod"]
  /\ fst (SearchByName Tests.byName "nonexistent") = Some []
  /\ snd (SearchByName Tests.byName "nginx") = None.
Proof. repeat split; reflexivity. Qed.

Example TestGetOwnerInfo :
  getOwnerInfo (Pod.mk "test-pod" "default" ∅ ∅ [OwnerReference.mk "ReplicaSet" "test-rs"]
                  (PodStatus.mk "" ""))
  = ("ReplicaSet", "test-rs")
  /\ getOwnerInfo (Pod.mk "test-pod" "default" ∅ ∅ [] (PodStatus.mk "" "")) = ("", "")
  /\ getOwnerInfo (Pod.mk "test-pod" "default" ∅ ∅
                     [OwnerReference.mk "ReplicaSet" "test-rs-1";
                      OwnerReference.mk "DaemonSet" "test-ds"] (PodStatus.mk "" ""))
     = ("ReplicaSet", "test-rs-1").
Proof. repeat split; reflexivity. Qed.

Example TestSearchByIPWithLoadBalancer :
  Tests.serviceNames (SearchByIP Tests.withLoadBalancer "203.0.113.2") = ["lb-service"]
  /\ (ServiceInfo.Type_
      <$> elems (snd (fst (SearchByIP Tests.withLoadBalancer "203.0.113.2"))))
     = ["LoadBalancer"]
  /\ Tests.podNames (SearchByIP Tests.withLoadBalancer "203.0.113.2") = []
  /\ Tests.serviceNames (SearchByIP Tests.withLoadBalancer "203.0.113.1") = ["lb-service"].
Proof. repeat split; reflexivity. Qed.

(** A status with an unknown reason counts as a permission error by its
    code, also behind a wrapping error; a known reason decides alone. *)
Example permission_error_by_code :
  isPermissionError (Some (StatusError StatusReasonUnknown 403 "denied")) = true
  /\ isPermissionError
       (Some (wrapError "list" (StatusError StatusReasonUnknown 401 "who"))) = true
  /\ isPermissionError (Some (StatusError StatusReasonNotFound 403 "gone")) = false
  /\ isPermissionError (Some (errorString "connection refused")) = false.
Proof. repeat split; reflexivity. Qed.

(** ** The inner loops *)

Lemma eqb_decide (a b : string) : String.eqb a b = bool_decide (a = b).
Proof.
  destruct (String.eqb_spec a b) as [->|Hne].
  - by rewrite bool_decide_eq_true_2.
  - by rewrite bool_decide_eq_false_2.
Qed.

Section InnerLoops.
Context (ip : string).

Lemma rangePodsByIP_filter items pods :
  rangePodsByIP ip items pods
  = pods ++ (newPodInfo <$> filter (PodHasIP ip) items).
Proof.
  revert pods. induction items as [|pod items IH]; intros pods; simpl.
  - by rewrite app_nil_r.
  - rewrite !eqb_decide, filter_cons.
    destruct (decide (PodHasIP ip pod)) as [Hyes|Hno].
    + assert (bool_decide (PodStatus.PodIP (Pod.Status pod) = ip)
              || bool_decide (PodStatus.HostIP (Pod.Status pod) = ip) = true) as ->.
      { destruct Hyes as [H|H];
          rewrite (bool_decide_eq_true_2 _ H); [done | apply orb_true_r]. }
      rewrite IH, fmap_cons, <- app_assoc. done.
    + assert (bool_decide (PodStatus.PodIP (Pod.Status pod) = ip)
              || bool_decide (PodStatus.HostIP (Pod.Status pod) = ip) = false) as ->.
      { apply orb_false_iff. split; apply bool_decide_eq_false_2; intros H;
          apply Hno; [by left | by right]. }
      apply IH.
Qed.

Lemma rangeExternalIPs_spec externalIPs matched :
  rangeExternalIPs ip externalIPs matched = true
  <-> ip ∈ externalIPs \/ matched = true.
Proof.
  induction externalIPs as [|x l IH]; simpl.
  - rewrite elem_of_nil. tauto.
  - rewrite elem_of_cons, eqb_decide. case_bool_decide; subst.
    + tauto.
    + rewrite IH. intuition congruence.
Qed.

Lemma rangeIngress_spec ingresses matched :
  rangeIngress ip ingresses matched = true
  <-> ip ∈ map LoadBalancerIngress.IP ingresses \/ matched = true.
Proof.
  induction ingresses as [|x l IH]; simpl.
  - rewrite elem_of_nil. tauto.
  - rewrite elem_of_cons, eqb_decide. case_bool_decide; subst.
    + tauto.
    + rewrite IH. intuition congruence.
Qed.

Lemma serviceMatched_spec svc :
  serviceMatched ip svc = true <-> ServiceHasIP ip svc.
Proof.
  unfold serviceMatched, ServiceHasIP.
  rewrite !eqb_decide.
  case_bool_decide as Htype.
  - rewrite rangeIngress_spec, rangeExternalIPs_spec.
    case_bool_decide; intuition congruence.
  - rewrite rangeExternalIPs_spec.
    case_bool_decide; intuition congruence.
Qed.

Lemma rangeServicesByIP_filter items services :
  rangeServicesByIP ip items services
  = services ++ (newServiceInfo <$> filter (ServiceHasIP ip) items).
Proof.
  revert services. induction items as [|svc items IH]; intros services; simpl.
  - by rewrite app_nil_r.
  - rewrite filter_cons.
    destruct (decide (ServiceHasIP ip svc)) as [Hyes|Hno].
    + apply serviceMatched_spec in Hyes as ->.
      rewrite IH, fmap_cons, <- app_assoc. done.
    + destruct (serviceMatched ip svc) eqn:E.
      * apply serviceMatched_spec in E. contradiction.
      * apply IH.
Qed.

End InnerLoops.

(** ** The per-scope searches *)

Section PerScope.
Context (cs : Clientset.t) (ip : string).

Lemma OnlyPermissionFailures_cons ns namespaces :
  OnlyPermissionFailures cs (ns :: namespaces) ->
  OnlyPermissionFailures cs namespaces.
Proof. intros H n kind err Hin. apply H. by right. Qed.

Lemma podsListed_cons ns namespaces :
  podsListed cs (ns :: namespaces)
  = match Clientset.ListPods cs ns ListOptions.zero with
    | Ok items => items
    | Failed _ => []
    end ++ podsListed cs namespaces.
Proof. reflexivity. Qed.

Lemma servicesListed_cons ns namespaces :
  servicesListed cs (ns :: namespaces)
  = match Clientset.ListPods cs ns ListOptions.zero,
          Clientset.ListServices cs ns ListOptions.zero with
    | Ok _, Ok items => items
    | _, _ => []
    end ++ servicesListed cs namespaces.
Proof. reflexivity. Qed.

Lemma rangeNamespacesByIP_ok namespaces pods services :
  OnlyPermissionFailures cs namespaces ->
  rangeNamespacesByIP cs ip namespaces pods services
  = (Some (pods ++ (newPodInfo <$> filter (PodHasIP ip) (podsListed cs namespaces))),
     Some (services
           ++ (newServiceInfo <$> filter (ServiceHasIP ip) (servicesListed cs namespaces))),
     None).
Proof.
  revert pods services.
  induction namespaces as [|ns namespaces IH]; intros pods services Hperm.
  - simpl. by rewrite !app_nil_r.
  - pose proof (OnlyPermissionFailures_cons _ _ Hperm) as Hrest.
    simpl. rewrite podsListed_cons, servicesListed_cons.
    destruct (Clientset.ListPods cs ns ListOptions.zero) as [podItems|err] eqn:Epods.
    + destruct (Clientset.ListServices cs ns ListOptions.zero) as [svcItems|err] eqn:Esvc.
      * rewrite IH by done.
        rewrite rangePodsByIP_filter, rangeServicesByIP_filter.
        by rewrite !filter_app, !fmap_app, !app_assoc.
      * rewrite (Hperm ns "services" err); [|by left|by econstructor].
        rewrite IH by done.
        rewrite rangePodsByIP_filter. simpl.
        by rewrite !filter_app, !fmap_app, !app_assoc.
    + rewrite (Hperm ns "pods" err); [|by left|by constructor].
      by rewrite IH.
Qed.

Lemma rangeNamespacesByIP_surfaced before ns after kind err pods services :
  OnlyPermissionFailures cs before ->
  ListCallFails cs ns kind err ->
  Surfaced err ->
  rangeNamespacesByIP cs ip (before ++ ns :: after) pods services
  = (None, None,
     Some (wrapError ("failed to list " +:+ kind +:+ " in namespace " +:+ ns) err)).
Proof.
  unfold Surfaced. revert pods services.
  induction before as [|b before IH]; intros pods services Hperm Hfail Hsurf.
  - simpl. destruct Hfail as [err E|items err E1 E2].
    + by rewrite E, Hsurf.
    + by rewrite E1, E2, Hsurf.
  - pose proof (OnlyPermissionFailures_cons _ _ Hperm) as Hrest.
    simpl.
    destruct (Clientset.ListPods cs b ListOptions.zero) as [podItems|e] eqn:Epods.
    + destruct (Clientset.ListServices cs b ListOptions.zero) as [svcItems|e] eqn:Esvc.
      * by apply IH.
      * rewrite (Hperm b "services" e); [|by left|by econstructor].
        by apply IH.
    + rewrite (Hperm b "pods" e); [|by left|by constructor].
      by apply IH.
Qed.

Lemma rangeNamespacesByIP_nil_error namespaces pods services pods' services' :
  rangeNamespacesByIP cs ip namespaces pods services = (pods', services', None) ->
  OnlyPermissionFailures cs namespaces.
Proof.
  revert pods services.
  induction namespaces as [|ns namespaces IH]; intros pods services Hrun.
  - intros n kind err Hin. by apply elem_of_nil in Hin.
  - simpl in Hrun.
    intros n kind err Hin Hfail.
    apply elem_of_cons in Hin as [->|Hin].
    + destruct Hfail as [err E|items err E1 E2].
      * rewrite E in Hrun.
        by destruct (isPermissionError (Some err)).
      * rewrite E1, E2 in Hrun.
        by destruct (isPermissionError (Some err)).
    + destruct (Clientset.ListPods cs ns ListOptions.zero) as [podItems|e].
      * destruct (Clientset.ListServices cs ns ListOptions.zero) as [svcItems|e].
        -- by eapply (IH _ _ Hrun).
        -- destruct (isPermissionError (Some e)); [|done].
           by eapply (IH _ _ Hrun).
      * destruct (isPermissionError (Some e)); [|done].
        by eapply (IH _ _ Hrun).
Qed.

End PerScope.

(** ** Properties of the per-scope search *)

(** The pods of [podsListed] are the pods that a pod list of one of the
    namespaces answers with. *)
Lemma elem_of_podsListed (cs : Clientset.t) (namespaces : list string) (pod : Pod.t) :
  pod ∈ podsListed cs namespaces
  <-> exists ns items,
      ns ∈ namespaces
      /\ Clientset.ListPods cs ns ListOptions.zero = Ok items
      /\ pod ∈ items.
Proof.
  unfold podsListed. rewrite list_elem_of_bind. split.
  - intros (ns & Hin & Hns).
    destruct (Clientset.ListPods cs ns ListOptions.zero) as [items|err] eqn:Hpods;
      [|by apply elem_of_nil in Hin].
    by exists ns, items.
  - intros (ns & items & Hns & Hpods & Hin). exists ns. by rewrite Hpods.
Qed.

(** The services of [servicesListed] are the services that a service list
    answers with in a namespace whose pod list succeeded before. *)
Lemma elem_of_servicesListed (cs : Clientset.t) (namespaces : list string)
    (svc : Service.t) :
  svc ∈ servicesListed cs namespaces
  <-> exists ns podItems items,
      ns ∈ namespaces
      /\ Clientset.ListPods cs ns ListOptions.zero = Ok podItems
      /\ Clientset.ListServices cs ns ListOptions.zero = Ok items
      /\ svc ∈ items.
Proof.
  unfold servicesListed. rewrite list_elem_of_bind. split.
  - intros (ns & Hin & Hns).
    destruct (Clientset.ListPods cs ns ListOptions.zero) as [podItems|err] eqn:Hpods;
      [|by apply elem_of_nil in Hin].
    destruct (Clientset.ListServices cs ns ListOptions.zero) as [items|err] eqn:Hsvcs;
      [|by apply elem_of_nil in Hin].
    by exists ns, podItems, items.
  - intros (ns & podItems & items & Hns & Hpods & Hsvcs & Hin).
    exists ns. by rewrite Hpods, Hsvcs.
Qed.

(** C5, as the code has it. The service [vault] of namespace [locked] has
    the cluster IP searched for and the service list of that namespace
    answers with it, but the pod list of the namespace is forbidden, so the
    service list is never called: the search returns no service and a nil
    error, also when other namespaces are searched with it. *)
Lemma C5_matching_service_not_returned :
  Clientset.ListServices Sample.east "locked" ListOptions.zero
  = Ok [Sample.locked_service]
  /\ ServiceSpec.ClusterIP (Service.Spec Sample.locked_service) = "10.96.0.20"
  /\ SearchByIP (Sample.eastClient ["locked"]) "10.96.0.20" = (Some [], Some [], None)
  /\ SearchByIP (Sample.eastClient ["default"; "locked"; "audit"]) "10.96.0.20"
     = (Some [], Some [], None).
Proof. repeat split; reflexivity. Qed.

(** C5, amended. IP-match semantics, over what the search lists. When
    [SearchByIP] returns without error, its pods are exactly the pods, among
    those that the pod lists of its namespaces answer with, whose pod IP or
    host IP equals the query. Its services are exactly the services, among
    those that the service lists answer with in the namespaces whose pod
    list succeeded, whose cluster IP equals the query, or one of whose
    external IPs does, or, only for type LoadBalancer, one of whose ingress
    IPs does. Equality is equality of strings, and the order is the listing
    order. The services of a namespace whose pod list is denied are not
    listed and not returned. *)
Theorem C5_ip_match_semantics (c : K8sClient.t) (ip : string)
    (pods : slice PodInfo.t) (services : slice ServiceInfo.t) :
  SearchByIP c ip = (pods, services, None) ->
  pods = Some (newPodInfo
               <$> filter (PodHasIP ip)
                     (podsListed (K8sClient.Clientset c) (K8sClient.Namespaces c)))
  /\ services = Some (newServiceInfo
                      <$> filter (ServiceHasIP ip)
                            (servicesListed (K8sClient.Clientset c)
                               (K8sClient.Namespaces c)))
  /\ (forall pod : Pod.t,
         pod ∈ podsListed (K8sClient.Clientset c) (K8sClient.Namespaces c)
         <-> exists ns items,
             ns ∈ K8sClient.Namespaces c
             /\ Clientset.ListPods (K8sClient.Clientset c) ns ListOptions.zero = Ok items
             /\ pod ∈ items)
  /\ (forall svc : Service.t,
         svc ∈ servicesListed (K8sClient.Clientset c) (K8sClient.Namespaces c)
         <-> exists ns podItems items,
             ns ∈ K8sClient.Namespaces c
             /\ Clientset.ListPods (K8sClient.Clientset c) ns ListOptions.zero
                = Ok podItems
             /\ Clientset.ListServices (K8sClient.Clientset c) ns ListOptions.zero
                = Ok items
             /\ svc ∈ items).
Proof.
  unfold SearchByIP. intros Hrun.
  pose proof (rangeNamespacesByIP_nil_error _ _ _ _ _ _ _ Hrun) as Hperm.
  rewrite (rangeNamespacesByIP_ok _ ip _ [] [] Hperm) in Hrun.
  simpl in Hrun. simplify_eq.
  split; [done|]. split; [done|]. split.
  - intros pod. apply elem_of_podsListed.
  - intros svc. apply elem_of_servicesListed.
Qed.

Lemma C5_ip_match_semantics_witness :
  SearchByIP (Sample.eastClient ["default"; "locked"]) "203.0.113.2"
  = (Some [], Some [newServiceInfo Sample.lb_service], None)
  /\ Some [newServiceInfo Sample.lb_service]
     = Some (newServiceInfo
             <$> filter (ServiceHasIP "203.0.113.2")
                   (servicesListed Sample.east ["default"; "locked"])).
Proof.
  split; [reflexivity|].
  apply (proj1 (proj2 (C5_ip_match_semantics
                         (Sample.eastClient ["default"; "locked"]) "203.0.113.2"
                         (Some []) (Some [newServiceInfo Sample.lb_service])
                         eq_refl))).
Defined.

(** C2, as the code has it. A forbidden or unauthorized answer to the pod
    list ends the iteration for that namespace: the service list is not
    called, so the namespace yields neither pods nor services, here although
    its service list would answer with a service carrying the address. *)
Lemma C2_pod_list_denied_skips_services :
  Clientset.ListPods Sample.east "locked" ListOptions.zero = Failed Sample.forbidden
  /\ isPermissionError (Some Sample.forbidden) = true
  /\ Clientset.ListServices Sample.east "locked" ListOptions.zero
     = Ok [Sample.locked_service]
  /\ ServiceHasIP "10.96.0.20" Sample.locked_service
  /\ SearchByIP (Sample.eastClient ["locked"]) "10.96.0.20" = (Some [], Some [], None).
Proof.
  repeat split; try reflexivity. by left.
Qed.

(** C2, amended. A forbidden or unauthorized answer to the pod list makes
    the search skip the namespace as a whole, pods and services, keep what
    it has and go on with the remaining namespaces; a scope of that one
    namespace yields empty results and no error. Such an answer to the
    service list makes the search skip the services of the namespace only:
    the matching pods of the namespace are kept. *)
Theorem C2_permission_error_skips (cs : Clientset.t) (ns : string)
    (err : error_value) :
  isPermissionError (Some err) = true ->
  (Clientset.ListPods cs ns ListOptions.zero = Failed err ->
   (forall ip rest pods services,
       rangeNamespacesByIP cs ip (ns :: rest) pods services
       = rangeNamespacesByIP cs ip rest pods services)
   /\ (forall name rest pods,
          rangeNamespacesByName cs name (ns :: rest) pods
          = rangeNamespacesByName cs name rest pods)
   /\ (forall cfg ip,
          SearchByIP (K8sClient.mk cs cfg [ns]) ip = (Some [], Some [], None))
   /\ (forall cfg name,
          SearchByName (K8sClient.mk cs cfg [ns]) name = (Some [], None)))
  /\ (forall items,
         Clientset.ListPods cs ns ListOptions.zero = Ok items ->
         Clientset.ListServices cs ns ListOptions.zero = Failed err ->
         (forall ip rest pods services,
             rangeNamespacesByIP cs ip (ns :: rest) pods services
             = rangeNamespacesByIP cs ip rest
                 (pods ++ (newPodInfo <$> filter (PodHasIP ip) items)) services)
         /\ (forall cfg ip,
                SearchByIP (K8sClient.mk cs cfg [ns]) ip
                = (Some (newPodInfo <$> filter (PodHasIP ip) items), Some [], None))).
Proof.
  intros Hperm. split.
  - intros Hpods.
    assert (forall ip rest pods services,
               rangeNamespacesByIP cs ip (ns :: rest) pods services
               = rangeNamespacesByIP cs ip rest pods services) as Hip.
    { intros. simpl. unfold isPermissionError in *. by rewrite Hpods, Hperm. }
    assert (forall name rest pods,
               rangeNamespacesByName cs name (ns :: rest) pods
               = rangeNamespacesByName cs name rest pods) as Hname.
    { intros. simpl. unfold isPermissionError in *. by rewrite Hpods, Hperm. }
    repeat split; try done.
    + intros cfg ip. unfold SearchByIP. simpl K8sClient.Namespaces. by rewrite Hip.
    + intros cfg name. unfold SearchByName. simpl K8sClient.Namespaces. by rewrite Hname.
  - intros items Hpods Hsvc.
    assert (forall ip rest pods services,
               rangeNamespacesByIP cs ip (ns :: rest) pods services
               = rangeNamespacesByIP cs ip rest
                   (pods ++ (newPodInfo <$> filter (PodHasIP ip) items)) services) as Hip.
    { intros. simpl. unfold isPermissionError in *.
      by rewrite Hpods, Hsvc, Hperm, rangePodsByIP_filter. }
    split; [done|].
    intros cfg ip. unfold SearchByIP. simpl K8sClient.Namespaces. by rewrite Hip.
Qed.

Lemma C2_permission_error_skips_witness :
  SearchByName (Sample.eastClient ["locked"]) "vault" = (Some [], None)
  /\ SearchByIP (Sample.eastClient ["audit"]) "10.0.0.9"
     = (Some [newPodInfo Sample.audit_pod], Some [], None).
Proof.
  split.
  - apply (C2_permission_error_skips Sample.east "locked" Sample.forbidden);
      reflexivity.
  - apply (proj2 (C2_permission_error_skips Sample.east "audit" Sample.unauthorized
                    eq_refl) [Sample.audit_pod] eq_refl eq_refl).
Defined.

Lemma rangeNamespacesByIP_error_nil cs ip namespaces pods services pods' services' err :
  rangeNamespacesByIP cs ip namespaces pods services = (pods', services', Some err) ->
  pods' = None /\ services' = None.
Proof.
  revert pods services.
  induction namespaces as [|ns namespaces IH]; intros pods services; simpl; [done|].
  destruct (Clientset.ListPods cs ns ListOptions.zero) as [podItems|e].
  - destruct (Clientset.ListServices cs ns ListOptions.zero) as [svcItems|e];
      [by apply IH|].
    destruct (isPermissionError (Some e)); [by apply IH|].
    intros H. by simplify_eq.
  - destruct (isPermissionError (Some e)); [by apply IH|].
    intros H. by simplify_eq.
Qed.

(** C10. When a list call of [SearchByIP] fails with an error that is
    neither forbidden nor unauthorized, the call returns nil pods, nil
    services and that error, wrapped with the resource kind and the
    namespace: whatever the namespaces before it had yielded is gone.
    Whenever [SearchByIP] returns an error, both slices are nil. *)
Theorem C10_error_discards_matches (c : K8sClient.t) (ip : string)
    (before : list string) (ns : string) (after : list string)
    (kind : string) (err : error_value)
    (pods : slice PodInfo.t) (services : slice ServiceInfo.t) :
  K8sClient.Namespaces c = before ++ ns :: after ->
  SearchByIP (withNamespaces c before) ip = (pods, services, None) ->
  ListCallFails (K8sClient.Clientset c) ns kind err ->
  isPermissionError (Some err) = false ->
  SearchByIP c ip
  = (None, None,
     Some (wrapError ("failed to list " +:+ kind +:+ " in namespace " +:+ ns) err))
  /\ forall (ip' : string) pods' services' err',
      SearchByIP c ip' = (pods', services', Some err') ->
      pods' = None /\ services' = None.
Proof.
  unfold SearchByIP. intros -> Hbefore Hfail Hsurf. simpl in Hbefore. split.
  - apply rangeNamespacesByIP_surfaced; try done.
    by eapply rangeNamespacesByIP_nil_error.
  - intros ip' pods' services' err'. apply rangeNamespacesByIP_error_nil.
Qed.

Lemma C10_error_discards_matches_witness :
  SearchByIP (Sample.eastClient ["default"]) "10.0.0.1"
  = (Some [newPodInfo Sample.web_pod], Some [], None)
  /\ SearchByIP (Sample.eastClient ["default"; "broken"; "audit"]) "10.0.0.1"
     = (None, None,
        Some (wrapError "failed to list pods in namespace broken" Sample.refused)).
Proof.
  split; [reflexivity|].
  apply (C10_error_discards_matches
           (Sample.eastClient ["default"; "broken"; "audit"]) "10.0.0.1"
           ["default"] "broken" ["audit"] "pods" Sample.refused
           (Some [newPodInfo Sample.web_pod]) (Some []));
    [reflexivity | reflexivity | by constructor | reflexivity].
Defined.

(** ** Substring search *)

Lemma prefix_app (sub s : string) :
  String.prefix sub s = true <-> exists after, s = (sub ++ after)%string.
Proof.
  revert s. induction sub as [|a sub IH]; intros s.
  - split; [intros _; by exists s|intros _; by destruct s].
  - destruct s as [|b s]; simpl.
    + split; [done|intros [after H]; discriminate].
    + destruct (Ascii.ascii_dec a b) as [->|Hne].
      * rewrite IH. split; intros [after H]; exists after.
        -- by rewrite H.
        -- by inversion H.
      * split; [done|]. intros [after H]. injection H as Hab _. by destruct Hne.
Qed.

Lemma IsSubstring_empty (sub : string) :
  IsSubstring sub "" <-> String.prefix sub "" = true.
Proof.
  rewrite prefix_app. split.
  - intros [before [after H]]. destruct before; [|discriminate].
    by exists after.
  - intros [after H]. by exists "", after.
Qed.

Lemma IsSubstring_String (sub : string) (a : Ascii.ascii) (s : string) :
  IsSubstring sub (String a s)
  <-> String.prefix sub (String a s) = true \/ IsSubstring sub s.
Proof.
  rewrite prefix_app. split.
  - intros [before [after H]]. destruct before as [|b before].
    + left. by exists after.
    + right. inversion H. by exists before, after.
  - intros [[after H]|[before [after H]]].
    + by exists "", after.
    + exists (String a before), after. by rewrite H.
Qed.

Lemma IndexFrom_spec (s sub : string) (i : Z) :
  0 <= i ->
  (i <= strings.IndexFrom s sub i /\ IsSubstring sub s)
  \/ (strings.IndexFrom s sub i = -1 /\ ~ IsSubstring sub s).
Proof.
  revert i. induction s as [|a s IH]; intros i Hi.
  - unfold strings.IndexFrom. rewrite IsSubstring_empty.
    destruct (String.prefix sub "") eqn:E; [left|right]; split; done || lia.
  - rewrite IsSubstring_String.
    cbn [strings.IndexFrom].
    destruct (String.prefix sub (String a s)) eqn:E.
    + left. split; [lia|by left].
    + destruct (IH (i + 1) ltac:(lia)) as [[Hle Hsub]|[Hneg Hnot]].
      * left. split; [lia|by right].
      * right. split; [done|]. intros [?|?]; done.
Qed.

Lemma Contains_spec (s sub : string) :
  strings.Contains s sub = true <-> IsSubstring sub s.
Proof.
  unfold strings.Contains, strings.Index.
  destruct (IndexFrom_spec s sub 0 ltac:(lia)) as [[Hle Hsub]|[Hneg Hnot]].
  - split; [done|]. intros _. by apply Z.leb_le.
  - rewrite Hneg. split; [done|]. intros H. contradiction.
Qed.

Global Instance IsSubstring_dec sub s : Decision (IsSubstring sub s).
Proof.
  refine (cast_if (decide (strings.Contains s sub = true)));
    abstract (by rewrite <- Contains_spec).
Defined.

Lemma rangePodsByName_filter name items pods :
  rangePodsByName name items pods
  = pods ++ (newPodInfo <$> filter (fun pod => IsSubstring name (Pod.Name pod)) items).
Proof.
  revert pods. induction items as [|pod items IH]; intros pods; simpl.
  - by rewrite app_nil_r.
  - rewrite filter_cons.
    destruct (decide (IsSubstring name (Pod.Name pod))) as [Hyes|Hno].
    + apply Contains_spec in Hyes as ->.
      rewrite IH, fmap_cons, <- app_assoc. done.
    + destruct (strings.Contains (Pod.Name pod) name) eqn:E.
      * apply Contains_spec in E. contradiction.
      * apply IH.
Qed.

Lemma rangeNamespacesByName_ok cs name namespaces pods :
  OnlyPermissionPodFailures cs namespaces ->
  rangeNamespacesByName cs name namespaces pods
  = (Some (pods ++ (newPodInfo
                    <$> filter (fun pod => IsSubstring name (Pod.Name pod))
                          (podsListed cs namespaces))),
     None).
Proof.
  revert pods.
  induction namespaces as [|ns namespaces IH]; intros pods Hperm.
  - simpl. by rewrite app_nil_r.
  - assert (OnlyPermissionPodFailures cs namespaces) as Hrest.
    { intros n err Hin. apply Hperm. by right. }
    simpl. rewrite podsListed_cons.
    destruct (Clientset.ListPods cs ns ListOptions.zero) as [podItems|err] eqn:Epods.
    + rewrite IH by done. rewrite rangePodsByName_filter.
      by rewrite filter_app, fmap_app, app_assoc.
    + rewrite (Hperm ns err); [|by left|done]. by rewrite IH.
Qed.

Lemma rangeNamespacesByName_error cs name namespaces pods :
  snd (rangeNamespacesByName cs name namespaces pods) = None
  <-> OnlyPermissionPodFailures cs namespaces.
Proof.
  split; [|intros H; by rewrite rangeNamespacesByName_ok].
  revert pods.
  induction namespaces as [|ns namespaces IH]; intros pods Hrun.
  - intros n err Hin. by apply elem_of_nil in Hin.
  - simpl in Hrun. intros n err Hin Hfail.
    apply elem_of_cons in Hin as [->|Hin].
    + rewrite Hfail in Hrun. by destruct (isPermissionError (Some err)).
    + destruct (Clientset.ListPods cs ns ListOptions.zero) as [podItems|e].
      * by eapply (IH _ Hrun).
      * destruct (isPermissionError (Some e)); [|done]. by eapply (IH _ Hrun).
Qed.

Lemma rangeNamespacesByName_error_indep cs name name' namespaces pods pods' :
  snd (rangeNamespacesByName cs name namespaces pods)
  = snd (rangeNamespacesByName cs name' namespaces pods').
Proof.
  revert pods pods'.
  induction namespaces as [|ns namespaces IH]; intros pods pods'; simpl; [done|].
  destruct (Clientset.ListPods cs ns ListOptions.zero) as [podItems|e]; [by apply IH|].
  destruct (isPermissionError (Some e)); [by apply IH|done].
Qed.

Lemma filter_all {A : Type} (P : A -> Prop) `{forall x, Decision (P x)} (l : list A) :
  (forall x, P x) -> filter P l = l.
Proof.
  intros HP. induction l as [|x l IH]; [done|].
  rewrite filter_cons, IH. by destruct (decide (P x)) as [|Hno]; [|destruct (Hno (HP x))].
Qed.

Lemma SearchByName_nil_error (c : K8sClient.t) (name : string)
    (pods : slice PodInfo.t) :
  SearchByName c name = (pods, None) ->
  pods = Some (newPodInfo
               <$> filter (fun pod => IsSubstring name (Pod.Name pod))
                     (podsListed (K8sClient.Clientset c) (K8sClient.Namespaces c))).
Proof.
  unfold SearchByName. intros Hrun.
  assert (OnlyPermissionPodFailures (K8sClient.Clientset c) (K8sClient.Namespaces c))
    as Hperm.
  { eapply rangeNamespacesByName_error. by rewrite Hrun. }
  rewrite (rangeNamespacesByName_ok _ name _ [] Hperm) in Hrun.
  simpl in Hrun. by inversion Hrun.
Qed.

(** C8. Name-match semantics. When [SearchByName] returns without error,
    its pods are exactly the listed pods whose name contains the query as a
    contiguous run of bytes, compared as they are, in listing order; this
    holds for every query, the non-empty ones in particular. The record of
    a pod carries the kind and the name of the pod's first owner reference,
    and two empty strings when the pod has none. *)
Theorem C8_name_match_semantics (c : K8sClient.t) (name : string)
    (pods : slice PodInfo.t) :
  SearchByName c name = (pods, None) ->
  pods = Some (newPodInfo
               <$> filter (fun pod => IsSubstring name (Pod.Name pod))
                     (podsListed (K8sClient.Clientset c) (K8sClient.Namespaces c)))
  /\ forall pod : Pod.t,
      PodInfo.OwnerKind (newPodInfo pod)
      = from_option OwnerReference.Kind "" (head (Pod.OwnerReferences pod))
      /\ PodInfo.OwnerName (newPodInfo pod)
         = from_option OwnerReference.Name "" (head (Pod.OwnerReferences pod)).
Proof.
  intros Hrun. split.
  - by apply SearchByName_nil_error.
  - intros pod. unfold newPodInfo, getOwnerInfo.
    by destruct (Pod.OwnerReferences pod).
Qed.

Lemma C8_name_match_semantics_witness :
  SearchByName (Sample.eastClient ["locked"; "default"]) "nginx"
  = (Some [newPodInfo Sample.web_pod], None)
  /\ Some [newPodInfo Sample.web_pod]
     = Some (newPodInfo
             <$> filter (fun pod => IsSubstring "nginx" (Pod.Name pod))
                   (podsListed Sample.east ["locked"; "default"]))
  /\ PodInfo.OwnerKind (newPodInfo Sample.web_pod) = "ReplicaSet"
  /\ PodInfo.OwnerName (newPodInfo Sample.redis_pod) = "".
Proof.
  split; [reflexivity|]. split; [|split; reflexivity].
  apply (C8_name_match_semantics (Sample.eastClient ["locked"; "default"]) "nginx"
           (Some [newPodInfo Sample.web_pod])).
  reflexivity.
Defined.

(** C9. [SearchByName] does not reject the empty query: it fails on the
    empty query exactly when it fails on any other, and where it returns
    without error it returns every listed pod of every searched namespace.
    The empty query is turned down before any search by the entry points
    [SearchK8sByNameAllContexts] and [SearchK8sByName]. *)
Theorem C9_empty_name_query :
  (forall (c : K8sClient.t) (pods : slice PodInfo.t),
      SearchByName c "" = (pods, None) ->
      pods = Some (newPodInfo
                   <$> podsListed (K8sClient.Clientset c) (K8sClient.Namespaces c)))
  /\ (forall (c : K8sClient.t) (name : string),
         snd (SearchByName c "") = snd (SearchByName c name))
  /\ (forall (w : World.t) (kubeconfigPath : string) (namespaces : list string),
         cmd.SearchK8sByNameAllContexts w kubeconfigPath "" namespaces
         = Some (errorString "name cannot be empty"))
  /\ (forall (w : World.t) (config : cmd.K8sSearchConfig.t),
         cmd.SearchK8sByName w config "" = Some (errorString "name cannot be empty")).
Proof.
  repeat split; try done.
  - intros c pods Hrun.
    rewrite (SearchByName_nil_error c "" pods Hrun).
    rewrite filter_all; [done|]. intros pod. by exists "", (Pod.Name pod).
  - intros c name. apply rangeNamespacesByName_error_indep.
Qed.

Lemma C9_empty_name_query_witness :
  SearchByName (Sample.eastClient ["default"; "locked"; "audit"]) ""
  = (Some [newPodInfo Sample.web_pod; newPodInfo Sample.redis_pod;
           newPodInfo Sample.audit_pod], None)
  /\ Some [newPodInfo Sample.web_pod; newPodInfo Sample.redis_pod;
           newPodInfo Sample.audit_pod]
     = Some (newPodInfo <$> podsListed Sample.east ["default"; "locked"; "audit"])
  /\ cmd.SearchK8sByNameAllContexts Sample.world "/kube/config" "" ["default"]
     = Some (errorString "name cannot be empty").
Proof.
  split; [reflexivity|]. split.
  - apply (proj1 C9_empty_name_query
             (Sample.eastClient ["default"; "locked"; "audit"])).
    reflexivity.
  - apply (proj1 (proj2 (proj2 C9_empty_name_query))).
Defined.

(** ** The owner resolver *)

Lemma rangeOwners_first (before : list OwnerReference.t) (owner : OwnerReference.t)
    (after : list OwnerReference.t) :
  Forall (fun o => OwnerReference.Kind o <> "Deployment") before ->
  OwnerReference.Kind owner = "Deployment" ->
  rangeOwners (before ++ owner :: after) = (OwnerReference.Name owner, None).
Proof.
  intros Hbefore Howner. induction Hbefore as [|o before Ho _ IH]; simpl.
  - by rewrite Howner.
  - rewrite eqb_decide, bool_decide_eq_false_2 by done. apply IH.
Qed.

Lemma rangeOwners_none (owners : list OwnerReference.t) :
  Forall (fun o => OwnerReference.Kind o <> "Deployment") owners ->
  rangeOwners owners = ("", Some (errorString "no deployment found for replicaset")).
Proof.
  induction 1 as [|o owners Ho _ IH]; simpl; [done|].
  by rewrite eqb_decide, bool_decide_eq_false_2.
Qed.

(** C7. Owner resolver contract. [GetDeploymentByReplicaSet] fails with the
    error of the lookup, wrapped, when the ReplicaSet cannot be fetched, so
    with its not-found error when the ReplicaSet is absent; fails with
    "replicaset has no owner" when the ReplicaSet has no owner reference;
    returns the name of the first owner reference of kind Deployment when
    there is one; and fails with "no deployment found for replicaset" when
    there are owner references and none has kind Deployment. *)
Theorem C7_owner_resolver_contract (c : K8sClient.t) (namespace replicaSetName : string) :
  (forall err : error_value,
      Clientset.GetReplicaSet (K8sClient.Clientset c) namespace replicaSetName
      = Failed err ->
      GetDeploymentByReplicaSet c namespace replicaSetName
      = ("", Some (wrapError "failed to get replicaset" err))
      /\ apierrors.ReasonForError (wrapError "failed to get replicaset" err)
         = apierrors.ReasonForError err)
  /\ (forall rs : ReplicaSet.t,
         Clientset.GetReplicaSet (K8sClient.Clientset c) namespace replicaSetName
         = Ok rs ->
         (ReplicaSet.OwnerReferences rs = [] ->
          GetDeploymentByReplicaSet c namespace replicaSetName
          = ("", Some (errorString "replicaset has no owner")))
         /\ (forall before owner after,
                ReplicaSet.OwnerReferences rs = before ++ owner :: after ->
                Forall (fun o => OwnerReference.Kind o <> "Deployment") before ->
                OwnerReference.Kind owner = "Deployment" ->
                GetDeploymentByReplicaSet c namespace replicaSetName
                = (OwnerReference.Name owner, None))
         /\ (ReplicaSet.OwnerReferences rs <> [] ->
             Forall (fun o => OwnerReference.Kind o <> "Deployment")
               (ReplicaSet.OwnerReferences rs) ->
             GetDeploymentByReplicaSet c namespace replicaSetName
             = ("", Some (errorString "no deployment found for replicaset")))).
Proof.
  unfold GetDeploymentByReplicaSet. split.
  - intros err ->. done.
  - intros rs ->. repeat split.
    + by intros ->.
    + intros before owner after -> Hbefore Howner.
      rewrite rangeOwners_first by done.
      by destruct before.
    + intros Hne Hnone. rewrite rangeOwners_none by done.
      by destruct (ReplicaSet.OwnerReferences rs).
Qed.

Lemma C7_owner_resolver_contract_witness :
  GetDeploymentByReplicaSet (Sample.eastClient ["default"]) "default"
    "nginx-deployment-xyz" = ("nginx-deployment", None)
  /\ GetDeploymentByReplicaSet (Sample.eastClient ["default"]) "default" "orphan"
     = ("", Some (errorString "replicaset has no owner"))
  /\ GetDeploymentByReplicaSet (Sample.eastClient ["default"]) "default" "adopted"
     = ("", Some (errorString "no deployment found for replicaset"))
  /\ GetDeploymentByReplicaSet (Sample.eastClient ["default"]) "default" "missing"
     = ("", Some (wrapError "failed to get replicaset" Sample.notFound)).
Proof.
  split; [|repeat split; reflexivity].
  apply (proj1 (proj2 (proj2 (C7_owner_resolver_contract
                                (Sample.eastClient ["default"]) "default"
                                "nginx-deployment-xyz")
                        _ eq_refl))
           [OwnerReference.mk "HorizontalPodAutoscaler" "hpa"]
           (OwnerReference.mk "Deployment" "nginx-deployment")
           [OwnerReference.mk "Deployment" "second"] eq_refl).
  - repeat constructor. discriminate.
  - reflexivity.
Defined.

(** ** The aggregate searches *)

Lemma rangeScopesByIP_bind client contextName ip nsNames results :
  rangeScopesByIP client contextName ip nsNames results
  = results ++ (nsNames ≫= scopeResultByIP client contextName ip).
Proof.
  revert client results.
  induction nsNames as [|nsName rest IH]; intros client results.
  - simpl. by rewrite app_nil_r.
  - cbn [rangeScopesByIP]. rewrite bind_cons.
    unfold scopeResultByIP at 1. unfold withNamespaces.
    destruct (SearchByIP _ ip) as [[pods services] [err|]].
    + by rewrite IH.
    + destruct ((0 <? len pods)%nat || (0 <? len services)%nat).
      * by rewrite IH, <- app_assoc.
      * by rewrite IH.
Qed.

Lemma rangeScopesByName_bind client contextName name nsNames results :
  rangeScopesByName client contextName name nsNames results
  = results ++ (nsNames ≫= scopeResultByName client contextName name).
Proof.
  revert client results.
  induction nsNames as [|nsName rest IH]; intros client results.
  - simpl. by rewrite app_nil_r.
  - cbn [rangeScopesByName]. rewrite bind_cons.
    unfold scopeResultByName at 1. unfold withNamespaces.
    destruct (SearchByName _ name) as [pods [err|]].
    + by rewrite IH.
    + destruct (0 <? len pods)%nat.
      * by rewrite IH, <- app_assoc.
      * by rewrite IH.
Qed.

Lemma rangeContextsByIP_bind w kubeconfigPath ip namespaces contexts results :
  rangeContextsByIP w kubeconfigPath ip namespaces contexts results
  = results ++ (contexts ≫= contextResultsByIP w kubeconfigPath ip namespaces).
Proof.
  revert results. induction contexts as [|contextName rest IH]; intros results.
  - simpl. by rewrite app_nil_r.
  - cbn [rangeContextsByIP]. rewrite bind_cons. unfold contextResultsByIP at 1.
    destruct (NewK8sClient w kubeconfigPath contextName []) as [[client|] [err|]];
      try by rewrite IH.
    destruct (namespacesToSearch client namespaces) as [nsNames|]; [|by rewrite IH].
    by rewrite IH, rangeScopesByIP_bind, <- app_assoc.
Qed.

Lemma rangeContextsByName_bind w kubeconfigPath name namespaces contexts results :
  rangeContextsByName w kubeconfigPath name namespaces contexts results
  = results ++ (contexts ≫= contextResultsByName w kubeconfigPath name namespaces).
Proof.
  revert results. induction contexts as [|contextName rest IH]; intros results.
  - simpl. by rewrite app_nil_r.
  - cbn [rangeContextsByName]. rewrite bind_cons. unfold contextResultsByName at 1.
    destruct (NewK8sClient w kubeconfigPath contextName []) as [[client|] [err|]];
      try by rewrite IH.
    destruct (namespacesToSearch client namespaces) as [nsNames|]; [|by rewrite IH].
    by rewrite IH, rangeScopesByName_bind, <- app_assoc.
Qed.

(** [LoadKubeConfig] returns a configuration or an error, never both and
    never neither. *)
Lemma LoadKubeConfig_cases w kubeconfigPath :
  (exists config, LoadKubeConfig w kubeconfigPath = (Some config, None))
  \/ (exists err, LoadKubeConfig w kubeconfigPath = (None, Some err)).
Proof.
  unfold LoadKubeConfig.
  destruct (World.LoadFromFile w kubeconfigPath) as [config|err]; eauto.
Qed.

Lemma SearchByIPAllContexts_loaded w kubeconfigPath ip namespaces config :
  LoadKubeConfig w kubeconfigPath = (Some config, None) ->
  SearchByIPAllContexts w kubeconfigPath ip namespaces
  = (Some (GetContexts config ≫= contextResultsByIP w kubeconfigPath ip namespaces),
     None).
Proof.
  intros Hload. unfold SearchByIPAllContexts. rewrite Hload.
  by rewrite rangeContextsByIP_bind.
Qed.

Lemma SearchByNameAllContexts_loaded w kubeconfigPath name namespaces config :
  LoadKubeConfig w kubeconfigPath = (Some config, None) ->
  SearchByNameAllContexts w kubeconfigPath name namespaces
  = (Some (GetContexts config ≫= contextResultsByName w kubeconfigPath name namespaces),
     None).
Proof.
  intros Hload. unfold SearchByNameAllContexts. rewrite Hload.
  by rewrite rangeContextsByName_bind.
Qed.

(** C1, as the code has it. The kubeconfig [/kube/empty] loads and names no
    context, so there is no scope to search at all; both aggregate searches
    return the empty list and a nil error. *)
Lemma C1_no_scope_is_no_error :
  LoadKubeConfig Sample.world "/kube/empty" = (Some (Config.mk [] ""), None)
  /\ scopesSearched Sample.world "/kube/empty" [] (GetContexts (Config.mk [] "")) = []
  /\ SearchByIPAllContexts Sample.world "/kube/empty" "10.0.0.1" [] = (Some [], None)
  /\ SearchByNameAllContexts Sample.world "/kube/empty" "nginx" [] = (Some [], None).
Proof. repeat split; reflexivity. Qed.

(** C1, amended. An aggregate search returns a non-nil error if and only if
    the top-level kubeconfig load fails, and then returns the error of the
    load with a nil list. When the load succeeds, the search returns a nil
    error and the results of the contexts merged in the order of the
    contexts, whatever fails in a context or in a scope, and also when
    there is no scope to search. *)
Theorem C1_aggregate_error (w : World.t) (kubeconfigPath query : string)
    (namespaces : list string) :
  (snd (SearchByIPAllContexts w kubeconfigPath query namespaces) <> None
   <-> snd (LoadKubeConfig w kubeconfigPath) <> None)
  /\ (snd (SearchByNameAllContexts w kubeconfigPath query namespaces) <> None
      <-> snd (LoadKubeConfig w kubeconfigPath) <> None)
  /\ (forall err,
         LoadKubeConfig w kubeconfigPath = (None, Some err) ->
         SearchByIPAllContexts w kubeconfigPath query namespaces = (None, Some err)
         /\ SearchByNameAllContexts w kubeconfigPath query namespaces = (None, Some err))
  /\ (forall config,
         LoadKubeConfig w kubeconfigPath = (Some config, None) ->
         SearchByIPAllContexts w kubeconfigPath query namespaces
         = (Some (GetContexts config
                  ≫= contextResultsByIP w kubeconfigPath query namespaces), None)
         /\ SearchByNameAllContexts w kubeconfigPath query namespaces
            = (Some (GetContexts config
                     ≫= contextResultsByName w kubeconfigPath query namespaces), None)).
Proof.
  destruct (LoadKubeConfig_cases w kubeconfigPath) as [[config Hload]|[err Hload]].
  - rewrite (SearchByIPAllContexts_loaded _ _ _ _ _ Hload).
    rewrite (SearchByNameAllContexts_loaded _ _ _ _ _ Hload).
    rewrite Hload. simpl. repeat split; intros; by simplify_eq.
  - unfold SearchByIPAllContexts, SearchByNameAllContexts. rewrite Hload. simpl.
    repeat split; intros; by simplify_eq.
Qed.

Lemma C1_aggregate_error_witness :
  SearchByIPAllContexts Sample.world "/kube/config" "192.168.1.1" ["default"; "broken"; "audit"]
  = (Some (GetContexts Sample.config
           ≫= contextResultsByIP Sample.world "/kube/config" "192.168.1.1"
                ["default"; "broken"; "audit"]), None)
  /\ SearchByIPAllContexts Sample.world "/kube/absent" "192.168.1.1" []
     = (None, Some (wrapError "failed to load kubeconfig"
                      (errorString "no such file or directory"))).
Proof.
  split.
  - apply (proj2 (proj2 (proj2 (C1_aggregate_error Sample.world "/kube/config"
                                  "192.168.1.1" ["default"; "broken"; "audit"])))
             Sample.config eq_refl).
  - apply (proj2 (proj2 (C1_aggregate_error Sample.world "/kube/absent"
                           "192.168.1.1" []))).
    reflexivity.
Defined.

(** C4. Fan-out failure isolation. When the client of a context cannot be
    constructed, the aggregate search returns what the contexts before it
    and the contexts after it yield, each searched as it would be without
    the failing one, and a nil error: the failing context adds nothing and
    stops nothing. *)
Theorem C4_failed_context_skipped (w : World.t) (kubeconfigPath query : string)
    (namespaces : list string) (config : Config.t)
    (before : list string) (contextName : string) (after : list string) :
  LoadKubeConfig w kubeconfigPath = (Some config, None) ->
  GetContexts config = before ++ contextName :: after ->
  snd (NewK8sClient w kubeconfigPath contextName []) <> None ->
  SearchByIPAllContexts w kubeconfigPath query namespaces
  = (Some ((before ≫= contextResultsByIP w kubeconfigPath query namespaces)
           ++ (after ≫= contextResultsByIP w kubeconfigPath query namespaces)), None)
  /\ SearchByNameAllContexts w kubeconfigPath query namespaces
     = (Some ((before ≫= contextResultsByName w kubeconfigPath query namespaces)
              ++ (after ≫= contextResultsByName w kubeconfigPath query namespaces)), None)
  /\ contextResultsByIP w kubeconfigPath query namespaces contextName = []
  /\ contextResultsByName w kubeconfigPath query namespaces contextName = [].
Proof.
  intros Hload Hcontexts Hfail.
  assert (contextResultsByIP w kubeconfigPath query namespaces contextName = []) as Hip.
  { unfold contextResultsByIP.
    by destruct (NewK8sClient w kubeconfigPath contextName []) as [[client|] [err|]]. }
  assert (contextResultsByName w kubeconfigPath query namespaces contextName = []) as Hname.
  { unfold contextResultsByName.
    by destruct (NewK8sClient w kubeconfigPath contextName []) as [[client|] [err|]]. }
  rewrite (SearchByIPAllContexts_loaded _ _ _ _ _ Hload).
  rewrite (SearchByNameAllContexts_loaded _ _ _ _ _ Hload).
  rewrite Hcontexts, !bind_app, !bind_cons, Hip, Hname. done.
Qed.

Lemma C4_failed_context_skipped_witness :
  SearchByIPAllContexts Sample.world "/kube/config" "192.168.1.1" []
  = (Some ((["east"] ≫= contextResultsByIP Sample.world "/kube/config" "192.168.1.1" [])
           ++ (["west"] ≫= contextResultsByIP Sample.world "/kube/config" "192.168.1.1" [])),
     None)
  /\ SearchByIPAllContexts Sample.world "/kube/config" "192.168.2.1" []
     = (Some [SearchResultWithContext.mk "west" "shop"
                (Some [newPodInfo Sample.shop_pod]) (Some [])], None).
Proof.
  split; [|reflexivity].
  apply (C4_failed_context_skipped Sample.world "/kube/config" "192.168.1.1" []
           Sample.config ["east"] "gone" ["west"]); [reflexivity | reflexivity | ].
  vm_compute. discriminate.
Defined.

Lemma elem_of_contextResultsByIP w kubeconfigPath ip namespaces contexts r :
  r ∈ contexts ≫= contextResultsByIP w kubeconfigPath ip namespaces ->
  exists client,
    NewK8sClient w kubeconfigPath (SearchResultWithContext.Context r) []
    = (Some client, None)
    /\ SearchByIP (withNamespaces client [SearchResultWithContext.Namespace r]) ip
       = (SearchResultWithContext.Pods r, SearchResultWithContext.Services r, None)
    /\ (0 <? len (SearchResultWithContext.Pods r))%nat
       || (0 <? len (SearchResultWithContext.Services r))%nat = true.
Proof.
  intros Hin. apply list_elem_of_bind in Hin as (contextName & Hin & _).
  unfold contextResultsByIP in Hin.
  destruct (NewK8sClient w kubeconfigPath contextName []) as [[client|] [err|]] eqn:Hclient;
    try by apply elem_of_nil in Hin.
  destruct (namespacesToSearch client namespaces) as [nsNames|];
    [|by apply elem_of_nil in Hin].
  apply list_elem_of_bind in Hin as (nsName & Hin & _).
  unfold scopeResultByIP in Hin.
  destruct (SearchByIP (withNamespaces client [nsName]) ip)
    as [[pods services] [err|]] eqn:Hsearch; [by apply elem_of_nil in Hin|].
  destruct ((0 <? len pods)%nat || (0 <? len services)%nat) eqn:Hfound;
    [|by apply elem_of_nil in Hin].
  apply list_elem_of_singleton in Hin as ->. simpl. eauto.
Qed.

Lemma elem_of_contextResultsByName w kubeconfigPath name namespaces contexts r :
  r ∈ contexts ≫= contextResultsByName w kubeconfigPath name namespaces ->
  exists client,
    NewK8sClient w kubeconfigPath (PodResultWithContext.Context r) []
    = (Some client, None)
    /\ SearchByName (withNamespaces client [PodResultWithContext.Namespace r]) name
       = (PodResultWithContext.Pods r, None)
    /\ (0 <? len (PodResultWithContext.Pods r))%nat = true.
Proof.
  intros Hin. apply list_elem_of_bind in Hin as (contextName & Hin & _).
  unfold contextResultsByName in Hin.
  destruct (NewK8sClient w kubeconfigPath contextName []) as [[client|] [err|]] eqn:Hclient;
    try by apply elem_of_nil in Hin.
  destruct (namespacesToSearch client namespaces) as [nsNames|];
    [|by apply elem_of_nil in Hin].
  apply list_elem_of_bind in Hin as (nsName & Hin & _).
  unfold scopeResultByName in Hin.
  destruct (SearchByName (withNamespaces client [nsName]) name)
    as [pods [err|]] eqn:Hsearch; [by apply elem_of_nil in Hin|].
  destruct (0 <? len pods)%nat eqn:Hfound; [|by apply elem_of_nil in Hin].
  apply list_elem_of_singleton in Hin as ->. simpl. eauto.
Qed.

(** C6. Empty-scope dropping. Every result an aggregate search returns has
    at least one pod or at least one service (at least one pod, for the
    name search), and a scope whose search yields no pod and no service has
    no entry in the returned list. *)
Theorem C6_empty_scopes_dropped (w : World.t) (kubeconfigPath query : string)
    (namespaces : list string) :
  (forall results,
      SearchByIPAllContexts w kubeconfigPath query namespaces = (Some results, None) ->
      Forall (fun r => (0 < len (SearchResultWithContext.Pods r))%nat
                       \/ (0 < len (SearchResultWithContext.Services r))%nat) results
      /\ forall contextName nsName client pods services err,
          NewK8sClient w kubeconfigPath contextName [] = (Some client, None) ->
          SearchByIP (withNamespaces client [nsName]) query = (pods, services, err) ->
          len pods = 0%nat -> len services = 0%nat ->
          forall r, r ∈ results ->
                    ~ (SearchResultWithContext.Context r = contextName
                       /\ SearchResultWithContext.Namespace r = nsName))
  /\ (forall results,
         SearchByNameAllContexts w kubeconfigPath query namespaces = (Some results, None) ->
         Forall (fun r => (0 < len (PodResultWithContext.Pods r))%nat) results
         /\ forall contextName nsName client pods err,
             NewK8sClient w kubeconfigPath contextName [] = (Some client, None) ->
             SearchByName (withNamespaces client [nsName]) query = (pods, err) ->
             len pods = 0%nat ->
             forall r, r ∈ results ->
                       ~ (PodResultWithContext.Context r = contextName
                          /\ PodResultWithContext.Namespace r = nsName)).
Proof.
  destruct (LoadKubeConfig_cases w kubeconfigPath) as [[config Hload]|[e Hload]].
  - rewrite (SearchByIPAllContexts_loaded _ _ _ _ _ Hload).
    rewrite (SearchByNameAllContexts_loaded _ _ _ _ _ Hload).
    split; intros results Hresults; simplify_eq; split.
    + apply Forall_forall. intros r Hin.
      apply elem_of_contextResultsByIP in Hin as (client & _ & _ & Hfound).
      apply orb_true_iff in Hfound as [H|H]; apply Nat.ltb_lt in H; tauto.
    + intros contextName nsName client pods services err Hclient Hsearch Hp Hs r Hin
        [Hctx Hns].
      apply elem_of_contextResultsByIP in Hin as (client' & Hclient' & Hsearch' & Hfound).
      subst contextName nsName.
      rewrite Hclient in Hclient'. injection Hclient' as <-.
      rewrite Hsearch in Hsearch'. injection Hsearch' as Hpods Hsvcs _.
      rewrite <- Hpods, <- Hsvcs, Hp, Hs in Hfound. done.
    + apply Forall_forall. intros r Hin.
      apply elem_of_contextResultsByName in Hin as (client & _ & _ & Hfound).
      by apply Nat.ltb_lt in Hfound.
    + intros contextName nsName client pods err Hclient Hsearch Hp r Hin [Hctx Hns].
      apply elem_of_contextResultsByName in Hin as (client' & Hclient' & Hsearch' & Hfound).
      subst contextName nsName.
      rewrite Hclient in Hclient'. injection Hclient' as <-.
      rewrite Hsearch in Hsearch'. injection Hsearch' as Hpods _.
      rewrite <- Hpods, Hp in Hfound. done.
  - unfold SearchByIPAllContexts, SearchByNameAllContexts. rewrite Hload.
    split; intros results Hresults; discriminate.
Qed.

Lemma C6_empty_scopes_dropped_witness :
  SearchByIPAllContexts Sample.world "/kube/config" "192.168.1.1" []
  = (Some [SearchResultWithContext.mk "east" "default"
             (Some [newPodInfo Sample.web_pod; newPodInfo Sample.redis_pod])
             (Some [])], None)
  /\ Forall (fun r => (0 < len (SearchResultWithContext.Pods r))%nat
                      \/ (0 < len (SearchResultWithContext.Services r))%nat)
       [SearchResultWithContext.mk "east" "default"
          (Some [newPodInfo Sample.web_pod; newPodInfo Sample.redis_pod])
          (Some [])].
Proof.
  split; [reflexivity|].
  apply (proj1 (C6_empty_scopes_dropped Sample.world "/kube/config" "192.168.1.1" [])).
  reflexivity.
Defined.

(** ** Namespace discovery *)

Lemma rangeProbe_filter cs items accessible :
  cmd.rangeProbe cs items accessible
  = accessible ++ filter (Probe cs) (Namespace.Name <$> items).
Proof.
  revert accessible. induction items as [|ns items IH]; intros accessible.
  - simpl. by rewrite app_nil_r.
  - cbn [cmd.rangeProbe]. rewrite fmap_cons, filter_cons.
    destruct (decide (Probe cs (Namespace.Name ns))) as [[found Hyes]|Hno].
    + by rewrite Hyes, IH, <- app_assoc.
    + destruct (Clientset.ListPods cs (Namespace.Name ns) (ListOptions.mk 1))
        as [found|err] eqn:E.
      * destruct Hno. by exists found.
      * apply IH.
Qed.

(** The empty context name stands for the current context. *)
Lemma NewK8sClient_current w kubeconfigPath config namespaces :
  LoadKubeConfig w kubeconfigPath = (Some config, None) ->
  NewK8sClient w kubeconfigPath "" namespaces
  = NewK8sClient w kubeconfigPath (Config.CurrentContext config) namespaces.
Proof.
  intros Hload. unfold NewK8sClient. rewrite Hload. simpl.
  destruct (String.eqb_spec (Config.CurrentContext config) "") as [->|_]; done.
Qed.

Lemma GetAccessibleNamespaces_ok w kubeconfigPath contextName client items :
  NewK8sClient w kubeconfigPath contextName [] = (Some client, None) ->
  Clientset.ListNamespaces (K8sClient.Clientset client) ListOptions.zero = Ok items ->
  cmd.GetAccessibleNamespaces w kubeconfigPath contextName
  = (Some (filter (Probe (K8sClient.Clientset client)) (Namespace.Name <$> items)), None).
Proof.
  intros Hclient Hlist. unfold cmd.GetAccessibleNamespaces.
  by rewrite Hclient, Hlist, rangeProbe_filter.
Qed.

Lemma namespacesToSearch_given client namespaces :
  namespaces <> [] -> namespacesToSearch client namespaces = Some namespaces.
Proof. intros Hne. unfold namespacesToSearch. by destruct namespaces. Qed.

(** C3, as the code has it. The kubeconfig [/kube/stale] has a current
    context whose client cannot be constructed, so the discovery fails and
    the namespace list stays empty. Context [east] is then searched in all
    the namespaces its API lists, [locked] among them, in which the probe
    fails: the namespaces searched there are not the accessible ones. And
    with the kubeconfig [/kube/config], whose current context is [east],
    the discovery is made in [east] alone: context [west] is searched in
    the namespace found there, not in its own accessible namespace. *)
Lemma C3_searched_is_not_accessible :
  (snd (cmd.GetAccessibleNamespaces Sample.world "/kube/stale" "") <> None
   /\ cmd.discoverNamespaces Sample.world "/kube/stale" [] = []
   /\ namespacesSearched Sample.world "/kube/stale"
        (cmd.discoverNamespaces Sample.world "/kube/stale" []) "east"
      = Some ["default"; "locked"]
   /\ cmd.GetAccessibleNamespaces Sample.world "/kube/stale" "east"
      = (Some ["default"], None)
   /\ ~ Probe Sample.east "locked")
  /\ (cmd.discoverNamespaces Sample.world "/kube/config" [] = ["default"]
      /\ namespacesSearched Sample.world "/kube/config"
           (cmd.discoverNamespaces Sample.world "/kube/config" []) "west"
         = Some ["default"]
      /\ cmd.GetAccessibleNamespaces Sample.world "/kube/config" "west"
         = (Some ["shop"], None)).
Proof.
  repeat split; try reflexivity.
  - vm_compute. discriminate.
  - intros [items H]. vm_compute in H. discriminate.
Qed.

(** C3, amended. With an empty explicit namespace list the entry points
    probe the namespaces of the current context. When the client of the
    current context can be constructed, its namespaces can be listed and at
    least one of them passes the probe, the namespaces searched in the
    current context are exactly those its API lists that pass the probe, in
    listing order. When that discovery fails or finds no namespace, and
    only then, the namespace list stays empty; and an aggregate search
    called with the empty list searches every context in all the namespaces
    its API lists, without a probe, and skips it when the listing fails. *)
Theorem C3_namespace_discovery (w : World.t) (kubeconfigPath : string)
    (config : Config.t) :
  LoadKubeConfig w kubeconfigPath = (Some config, None) ->
  let current := Config.CurrentContext config in
  let discovered := cmd.discoverNamespaces w kubeconfigPath [] in
  (forall client items,
      NewK8sClient w kubeconfigPath current [] = (Some client, None) ->
      Clientset.ListNamespaces (K8sClient.Clientset client) ListOptions.zero = Ok items ->
      filter (Probe (K8sClient.Clientset client)) (Namespace.Name <$> items) <> [] ->
      namespacesSearched w kubeconfigPath discovered current
      = Some (filter (Probe (K8sClient.Clientset client)) (Namespace.Name <$> items)))
  /\ (discovered = []
      <-> snd (cmd.GetAccessibleNamespaces w kubeconfigPath "") <> None
          \/ len (fst (cmd.GetAccessibleNamespaces w kubeconfigPath "")) = 0%nat)
  /\ (forall contextName client,
         NewK8sClient w kubeconfigPath contextName [] = (Some client, None) ->
         namespacesSearched w kubeconfigPath [] contextName
         = match Clientset.ListNamespaces (K8sClient.Clientset client) ListOptions.zero with
           | Ok items => Some (Namespace.Name <$> items)
           | Failed _ => None
           end).
Proof.
  intros Hload current discovered. repeat split.
  - intros client items Hclient Hlist Hsome.
    unfold namespacesSearched. rewrite Hclient.
    assert (discovered
            = filter (Probe (K8sClient.Clientset client)) (Namespace.Name <$> items)) as ->.
    { unfold discovered, cmd.discoverNamespaces. simpl.
      rewrite (GetAccessibleNamespaces_ok _ _ _ client items); [| |done].
      - simpl. by destruct (filter _ _).
      - by rewrite (NewK8sClient_current _ _ _ _ Hload). }
    by apply namespacesToSearch_given.
  - unfold discovered, cmd.discoverNamespaces. simpl.
    destruct (cmd.GetAccessibleNamespaces w kubeconfigPath "") as [accessible [err|]];
      simpl; [by left|].
    destruct accessible as [[|ns l]|]; simpl; [by right|done|by right].
  - unfold discovered, cmd.discoverNamespaces. simpl.
    destruct (cmd.GetAccessibleNamespaces w kubeconfigPath "") as [accessible [err|]];
      simpl; [done|].
    destruct accessible as [[|ns l]|]; simpl; [done| |done].
    intros [H|H]; [done|discriminate].
  - intros contextName client Hclient.
    unfold namespacesSearched. rewrite Hclient.
    unfold namespacesToSearch. simpl.
    by destruct (Clientset.ListNamespaces _ _).
Qed.

Lemma C3_namespace_discovery_witness :
  namespacesSearched Sample.world "/kube/config"
    (cmd.discoverNamespaces Sample.world "/kube/config" []) "east"
  = Some ["default"]
  /\ Some ["default"]
     = Some (filter (Probe Sample.east)
               (Namespace.Name <$> [Namespace.mk "default" "Active";
                                    Namespace.mk "locked" "Active"])).
Proof.
  split; [|reflexivity].
  apply (proj1 (C3_namespace_discovery Sample.world "/kube/config" Sample.config eq_refl)
           (Sample.eastClient []) [Namespace.mk "default" "Active";
                                   Namespace.mk "locked" "Active"]);
    [reflexivity | reflexivity | ].
  vm_compute. discriminate.
Defined.

(** The discovered list is handed to the aggregate search as if it had been
    given explicitly. With the kubeconfig [/kube/config] the pod at
    10.1.0.1 in namespace [shop] of context [west] is missed with the
    discovered list and found with the explicit one. *)
Lemma discovered_list_in_other_contexts :
  SearchByIPAllContexts Sample.world "/kube/config" "10.1.0.1"
    (cmd.discoverNamespaces Sample.world "/kube/config" [])
  = (Some [], None)
  /\ SearchByIPAllContexts Sample.world "/kube/config" "10.1.0.1" ["shop"]
     = (Some [SearchResultWithContext.mk "west" "shop"
                (Some [newPodInfo Sample.shop_pod]) (Some [])], None).
Proof. repeat split; reflexivity. Qed.

(** ** Further properties of the per-scope searches *)

Lemma rangeNamespacesByIP_error_indep cs ip ip' namespaces pods services pods' services' :
  snd (rangeNamespacesByIP cs ip namespaces pods services)
  = snd (rangeNamespacesByIP cs ip' namespaces pods' services').
Proof.
  revert pods services pods' services'.
  induction namespaces as [|ns namespaces IH]; intros pods services pods' services';
    simpl; [done|].
  destruct (Clientset.ListPods cs ns ListOptions.zero) as [podItems|e].
  - destruct (Clientset.ListServices cs ns ListOptions.zero) as [svcItems|e];
      [by apply IH|].
    destruct (isPermissionError (Some e)); [by apply IH|done].
  - destruct (isPermissionError (Some e)); [by apply IH|done].
Qed.

Lemma SearchByIP_nil_error_iff (c : K8sClient.t) (ip : string) :
  snd (SearchByIP c ip) = None
  <-> OnlyPermissionFailures (K8sClient.Clientset c) (K8sClient.Namespaces c).
Proof.
  unfold SearchByIP. split.
  - destruct (rangeNamespacesByIP _ ip _ [] []) as [[pods services] err] eqn:Hrun.
    simpl. intros ->. by eapply rangeNamespacesByIP_nil_error.
  - intros Hperm. by rewrite rangeNamespacesByIP_ok.
Qed.

(** Whether [SearchByIP] fails, and with which error, depends on the list
    calls alone and not on the address searched: it returns a nil error if
    and only if every list call that fails in its namespaces fails as
    forbidden or unauthorized. *)
Theorem SearchByIP_fails_iff (c : K8sClient.t) (ip : string) :
  (snd (SearchByIP c ip) = None
   <-> OnlyPermissionFailures (K8sClient.Clientset c) (K8sClient.Namespaces c))
  /\ forall ip' : string, snd (SearchByIP c ip) = snd (SearchByIP c ip').
Proof.
  split.
  - apply SearchByIP_nil_error_iff.
  - intros ip'. unfold SearchByIP. apply rangeNamespacesByIP_error_indep.
Qed.

Lemma rangeNamespacesByIP_app cs ip l1 l2 pods services :
  rangeNamespacesByIP cs ip (l1 ++ l2) pods services
  = match rangeNamespacesByIP cs ip l1 pods services with
    | (Some pods', Some services', None) => rangeNamespacesByIP cs ip l2 pods' services'
    | failed => failed
    end.
Proof.
  revert pods services.
  induction l1 as [|ns l1 IH]; intros pods services; simpl; [done|].
  destruct (Clientset.ListPods cs ns ListOptions.zero) as [podItems|e].
  - destruct (Clientset.ListServices cs ns ListOptions.zero) as [svcItems|e];
      [by apply IH|].
    destruct (isPermissionError (Some e)); [by apply IH|done].
  - destruct (isPermissionError (Some e)); [by apply IH|done].
Qed.

Lemma rangeNamespacesByIP_from_empty cs ip namespaces pods services :
  rangeNamespacesByIP cs ip namespaces pods services
  = match rangeNamespacesByIP cs ip namespaces [] [] with
    | (pods', services', None) =>
        (Some (pods ++ elems pods'), Some (services ++ elems services'), None)
    | (_, _, Some err) => (None, None, Some err)
    end.
Proof.
  destruct (rangeNamespacesByIP cs ip namespaces [] []) as [[pods' services'] [err|]]
    eqn:Hrun.
  - pose proof (rangeNamespacesByIP_error_indep cs ip ip namespaces pods services [] [])
      as Herr.
    rewrite Hrun in Herr. simpl in Herr.
    destruct (rangeNamespacesByIP cs ip namespaces pods services) as [[p s] e] eqn:Hrun'.
    simpl in Herr. subst e.
    by destruct (rangeNamespacesByIP_error_nil _ _ _ _ _ _ _ _ Hrun') as [-> ->].
  - pose proof (rangeNamespacesByIP_nil_error _ _ _ _ _ _ _ Hrun) as Hperm.
    rewrite (rangeNamespacesByIP_ok _ _ _ [] [] Hperm) in Hrun.
    rewrite (rangeNamespacesByIP_ok _ _ _ pods services Hperm).
    by simplify_eq.
Qed.

Lemma rangeNamespacesByName_app cs name l1 l2 pods :
  rangeNamespacesByName cs name (l1 ++ l2) pods
  = match rangeNamespacesByName cs name l1 pods with
    | (Some pods', None) => rangeNamespacesByName cs name l2 pods'
    | failed => failed
    end.
Proof.
  revert pods. induction l1 as [|ns l1 IH]; intros pods; simpl; [done|].
  destruct (Clientset.ListPods cs ns ListOptions.zero) as [podItems|e]; [by apply IH|].
  destruct (isPermissionError (Some e)); [by apply IH|done].
Qed.

Lemma rangeNamespacesByName_error_nil cs name namespaces pods pods' err :
  rangeNamespacesByName cs name namespaces pods = (pods', Some err) -> pods' = None.
Proof.
  revert pods. induction namespaces as [|ns namespaces IH]; intros pods; simpl; [done|].
  destruct (Clientset.ListPods cs ns ListOptions.zero) as [podItems|e]; [by apply IH|].
  destruct (isPermissionError (Some e)); [by apply IH|].
  intros H. by simplify_eq.
Qed.

Lemma rangeNamespacesByName_from_empty cs name namespaces pods :
  rangeNamespacesByName cs name namespaces pods
  = match rangeNamespacesByName cs name namespaces [] with
    | (pods', None) => (Some (pods ++ elems pods'), None)
    | (_, Some err) => (None, Some err)
    end.
Proof.
  destruct (rangeNamespacesByName cs name namespaces []) as [pods' [err|]] eqn:Hrun.
  - pose proof (rangeNamespacesByName_error_indep cs name name namespaces pods []) as Herr.
    rewrite Hrun in Herr. simpl in Herr.
    destruct (rangeNamespacesByName cs name namespaces pods) as [p e] eqn:Hrun'.
    simpl in Herr. subst e.
    by rewrite (rangeNamespacesByName_error_nil _ _ _ _ _ _ Hrun').
  - assert (OnlyPermissionPodFailures cs namespaces) as Hperm.
    { eapply rangeNamespacesByName_error. by rewrite Hrun. }
    rewrite (rangeNamespacesByName_ok _ _ _ [] Hperm) in Hrun.
    rewrite (rangeNamespacesByName_ok _ _ _ pods Hperm).
    by simplify_eq.
Qed.

(** Searching a list of namespaces is searching its two halves one after
    the other: an error of the first half, else an error of the second half,
    is the error of the whole, with nil results; without error the results
    of the halves are concatenated. *)
Theorem search_of_concatenated_namespaces (c : K8sClient.t) (query : string)
    (l1 l2 : list string) :
  SearchByIP (withNamespaces c (l1 ++ l2)) query
  = match SearchByIP (withNamespaces c l1) query with
    | (_, _, Some err) => (None, None, Some err)
    | (pods1, services1, None) =>
        match SearchByIP (withNamespaces c l2) query with
        | (_, _, Some err) => (None, None, Some err)
        | (pods2, services2, None) =>
            (Some (elems pods1 ++ elems pods2),
             Some (elems services1 ++ elems services2), None)
        end
    end
  /\ SearchByName (withNamespaces c (l1 ++ l2)) query
     = match SearchByName (withNamespaces c l1) query with
       | (_, Some err) => (None, Some err)
       | (pods1, None) =>
           match SearchByName (withNamespaces c l2) query with
           | (_, Some err) => (None, Some err)
           | (pods2, None) => (Some (elems pods1 ++ elems pods2), None)
           end
       end.
Proof.
  unfold SearchByIP, SearchByName. simpl. split.
  - rewrite rangeNamespacesByIP_app.
    destruct (rangeNamespacesByIP _ query l1 [] []) as [[pods1 services1] [err|]] eqn:H1.
    + by destruct (rangeNamespacesByIP_error_nil _ _ _ _ _ _ _ _ H1) as [-> ->].
    + pose proof (rangeNamespacesByIP_nil_error _ _ _ _ _ _ _ H1) as Hperm.
      rewrite (rangeNamespacesByIP_ok _ _ _ [] [] Hperm) in H1. simplify_eq.
      rewrite rangeNamespacesByIP_from_empty.
      by destruct (rangeNamespacesByIP _ query l2 [] []) as [[pods2 services2] [err|]].
  - rewrite rangeNamespacesByName_app.
    destruct (rangeNamespacesByName _ query l1 []) as [pods1 [err|]] eqn:H1.
    + by rewrite (rangeNamespacesByName_error_nil _ _ _ _ _ _ H1).
    + assert (OnlyPermissionPodFailures (K8sClient.Clientset c) l1) as Hperm.
      { eapply rangeNamespacesByName_error. by rewrite H1. }
      rewrite (rangeNamespacesByName_ok _ _ _ [] Hperm) in H1. simplify_eq.
      rewrite rangeNamespacesByName_from_empty.
      by destruct (rangeNamespacesByName _ query l2 []) as [pods2 [err|]].
Qed.

Lemma OnlyPermissionFailures_app cs l1 l2 :
  OnlyPermissionFailures cs (l1 ++ l2)
  <-> OnlyPermissionFailures cs l1 /\ OnlyPermissionFailures cs l2.
Proof.
  unfold OnlyPermissionFailures. split.
  - intros Hperm. split; intros ns kind err Hin; apply Hperm, elem_of_app; tauto.
  - intros [H1 H2] ns kind err Hin. apply elem_of_app in Hin as [Hin|Hin]; eauto.
Qed.

Lemma podsListed_app cs l1 l2 :
  podsListed cs (l1 ++ l2) = podsListed cs l1 ++ podsListed cs l2.
Proof. unfold podsListed. apply bind_app. Qed.

Lemma servicesListed_app cs l1 l2 :
  servicesListed cs (l1 ++ l2) = servicesListed cs l1 ++ servicesListed cs l2.
Proof. unfold servicesListed. apply bind_app. Qed.

Lemma length_zero_nil {A : Type} (l : list A) : (0 <? length l)%nat = false -> l = [].
Proof. destruct l; [done|]. simpl. discriminate. Qed.

Lemma scopeResultByIP_flatten client contextName ip nsName :
  OnlyPermissionFailures (K8sClient.Clientset client) [nsName] ->
  scopeResultByIP client contextName ip nsName ≫= (elems ∘ SearchResultWithContext.Pods)
  = newPodInfo <$> filter (PodHasIP ip) (podsListed (K8sClient.Clientset client) [nsName])
  /\ scopeResultByIP client contextName ip nsName
       ≫= (elems ∘ SearchResultWithContext.Services)
     = newServiceInfo
       <$> filter (ServiceHasIP ip) (servicesListed (K8sClient.Clientset client) [nsName]).
Proof.
  intros Hperm. unfold scopeResultByIP, SearchByIP, withNamespaces.
  cbn [K8sClient.Clientset K8sClient.Namespaces].
  rewrite (rangeNamespacesByIP_ok _ _ _ [] [] Hperm). simpl.
  destruct (0 <? length _)%nat eqn:Hpods; simpl.
  - by rewrite !app_nil_r.
  - destruct (0 <? length (newServiceInfo <$> _))%nat eqn:Hsvcs; simpl.
    + by rewrite !app_nil_r.
    + by rewrite (length_zero_nil _ Hpods), (length_zero_nil _ Hsvcs).
Qed.

Lemma scopeResultByName_flatten client contextName name nsName :
  OnlyPermissionPodFailures (K8sClient.Clientset client) [nsName] ->
  scopeResultByName client contextName name nsName
    ≫= (elems ∘ PodResultWithContext.Pods)
  = newPodInfo
    <$> filter (fun pod => IsSubstring name (Pod.Name pod))
          (podsListed (K8sClient.Clientset client) [nsName]).
Proof.
  intros Hperm. unfold scopeResultByName, SearchByName, withNamespaces.
  cbn [K8sClient.Clientset K8sClient.Namespaces].
  rewrite (rangeNamespacesByName_ok _ _ _ [] Hperm). simpl.
  destruct (0 <? length _)%nat eqn:Hpods; simpl.
  - by rewrite !app_nil_r.
  - by rewrite (length_zero_nil _ Hpods).
Qed.

(** The scope-by-scope search of the aggregate functions finds what one
    search of the whole namespace list finds: where [SearchByIP] on a list
    of namespaces returns without error, the pods of the scoped results,
    taken together in order, are its pods, and the services its services;
    likewise for [SearchByName]. The dropped empty scopes lose nothing. *)
Theorem scoped_results_hold_every_match (client : K8sClient.t)
    (contextName query : string) (nsNames : list string) :
  (forall pods services,
      SearchByIP (withNamespaces client nsNames) query = (pods, services, None) ->
      rangeScopesByIP client contextName query nsNames []
        ≫= (elems ∘ SearchResultWithContext.Pods) = elems pods
      /\ rangeScopesByIP client contextName query nsNames []
           ≫= (elems ∘ SearchResultWithContext.Services) = elems services)
  /\ (forall pods,
         SearchByName (withNamespaces client nsNames) query = (pods, None) ->
         rangeScopesByName client contextName query nsNames []
           ≫= (elems ∘ PodResultWithContext.Pods) = elems pods).
Proof.
  split.
  - intros pods services Hrun. unfold SearchByIP in Hrun. simpl in Hrun.
    pose proof (rangeNamespacesByIP_nil_error _ _ _ _ _ _ _ Hrun) as Hperm.
    rewrite (rangeNamespacesByIP_ok _ _ _ [] [] Hperm) in Hrun. simplify_eq. simpl.
    rewrite rangeScopesByIP_bind. simpl.
    induction nsNames as [|nsName rest IH]; [done|].
    change (nsName :: rest) with ([nsName] ++ rest) in *.
    apply OnlyPermissionFailures_app in Hperm as [Hns Hrest].
    destruct (IH Hrest) as [IHpods IHsvcs].
    destruct (scopeResultByIP_flatten client contextName query nsName Hns)
      as [Hpods Hsvcs].
    rewrite podsListed_app, servicesListed_app, !filter_app, !fmap_app.
    rewrite <- IHpods, <- IHsvcs, <- Hpods, <- Hsvcs.
    by rewrite !bind_app, !bind_singleton.
  - intros pods Hrun. unfold SearchByName in Hrun. simpl in Hrun.
    assert (OnlyPermissionPodFailures (K8sClient.Clientset client) nsNames) as Hperm.
    { eapply rangeNamespacesByName_error. by rewrite Hrun. }
    rewrite (rangeNamespacesByName_ok _ _ _ [] Hperm) in Hrun. simplify_eq. simpl.
    rewrite rangeScopesByName_bind. simpl.
    induction nsNames as [|nsName rest IH]; [done|].
    change (nsName :: rest) with ([nsName] ++ rest) in *.
    assert (OnlyPermissionPodFailures (K8sClient.Clientset client) [nsName]) as Hns.
    { intros n e Hin. apply Hperm. apply elem_of_app. by left. }
    assert (OnlyPermissionPodFailures (K8sClient.Clientset client) rest) as Hrest.
    { intros n e Hin. apply Hperm. apply elem_of_app. by right. }
    rewrite podsListed_app, filter_app, fmap_app.
    rewrite <- (IH Hrest), <- (scopeResultByName_flatten client contextName query nsName Hns).
    by rewrite !bind_app, !bind_singleton.
Qed.

Lemma scoped_results_hold_every_match_witness :
  SearchByIP (Sample.eastClient ["default"; "locked"; "audit"]) "192.168.1.1"
  = (Some [newPodInfo Sample.web_pod; newPodInfo Sample.redis_pod;
           newPodInfo Sample.audit_pod], Some [], None)
  /\ rangeScopesByIP (Sample.eastClient []) "east" "192.168.1.1"
       ["default"; "locked"; "audit"] []
       ≫= (elems ∘ SearchResultWithContext.Pods)
     = [newPodInfo Sample.web_pod; newPodInfo Sample.redis_pod;
        newPodInfo Sample.audit_pod].
Proof.
  split; [reflexivity|].
  apply (proj1 (scoped_results_hold_every_match (Sample.eastClient []) "east"
                  "192.168.1.1" ["default"; "locked"; "audit"])
           (Some [newPodInfo Sample.web_pod; newPodInfo Sample.redis_pod;
                  newPodInfo Sample.audit_pod]) (Some [])).
  reflexivity.
Defined.

(** ** Further properties of the aggregate searches *)

(** When no namespace list is given and a context's API refuses to list its
    namespaces, that context adds no result and the search goes on: the
    aggregate result is what the contexts before it and after it yield,
    with a nil error. *)
Theorem unlistable_context_skipped (w : World.t) (kubeconfigPath query : string)
    (config : Config.t) (before : list string) (contextName : string)
    (after : list string) (client : K8sClient.t) (err : error_value) :
  LoadKubeConfig w kubeconfigPath = (Some config, None) ->
  GetContexts config = before ++ contextName :: after ->
  NewK8sClient w kubeconfigPath contextName [] = (Some client, None) ->
  Clientset.ListNamespaces (K8sClient.Clientset client) ListOptions.zero = Failed err ->
  SearchByIPAllContexts w kubeconfigPath query []
  = (Some ((before ≫= contextResultsByIP w kubeconfigPath query [])
           ++ (after ≫= contextResultsByIP w kubeconfigPath query [])), None)
  /\ SearchByNameAllContexts w kubeconfigPath query []
     = (Some ((before ≫= contextResultsByName w kubeconfigPath query [])
              ++ (after ≫= contextResultsByName w kubeconfigPath query [])), None).
Proof.
  intros Hload Hcontexts Hclient Hlist.
  assert (contextResultsByIP w kubeconfigPath query [] contextName = []) as Hip.
  { unfold contextResultsByIP, namespacesToSearch. by rewrite Hclient, Hlist. }
  assert (contextResultsByName w kubeconfigPath query [] contextName = []) as Hname.
  { unfold contextResultsByName, namespacesToSearch. by rewrite Hclient, Hlist. }
  rewrite (SearchByIPAllContexts_loaded _ _ _ _ _ Hload).
  rewrite (SearchByNameAllContexts_loaded _ _ _ _ _ Hload).
  rewrite Hcontexts, !bind_app, !bind_cons, Hip, Hname. done.
Qed.

Lemma unlistable_context_skipped_witness :
  SearchByIPAllContexts Sample.restrictedWorld "/kube/stale" "192.168.1.1" []
  = (Some (([] ≫= contextResultsByIP Sample.restrictedWorld "/kube/stale" "192.168.1.1" [])
           ++ (["west"]
                 ≫= contextResultsByIP Sample.restrictedWorld "/kube/stale"
                      "192.168.1.1" [])), None).
Proof.
  apply (unlistable_context_skipped Sample.restrictedWorld "/kube/stale" "192.168.1.1"
           (Config.mk [("east", Context.mk "east-cluster" "ops");
                       ("west", Context.mk "west-cluster" "ops")] "gone")
           [] "east" ["west"]
           (K8sClient.mk (Sample.withoutNamespaceListing Sample.east)
              (Some (Config.mk [("east", Context.mk "east-cluster" "ops");
                                ("west", Context.mk "west-cluster" "ops")] "gone")) [])
           Sample.forbidden); reflexivity.
Defined.

Lemma context_results_provenance_ip w kubeconfigPath ip namespaces contexts r :
  r ∈ contexts ≫= contextResultsByIP w kubeconfigPath ip namespaces ->
  SearchResultWithContext.Context r ∈ contexts
  /\ (namespaces <> [] -> SearchResultWithContext.Namespace r ∈ namespaces).
Proof.
  intros Hin. apply list_elem_of_bind in Hin as (contextName & Hin & Hcontext).
  unfold contextResultsByIP in Hin.
  destruct (NewK8sClient w kubeconfigPath contextName []) as [[client|] [err|]];
    try by apply elem_of_nil in Hin.
  destruct (namespacesToSearch client namespaces) as [nsNames|] eqn:Hns;
    [|by apply elem_of_nil in Hin].
  apply list_elem_of_bind in Hin as (nsName & Hin & HnsName).
  unfold scopeResultByIP in Hin.
  destruct (SearchByIP (withNamespaces client [nsName]) ip) as [[pods services] [err|]];
    [by apply elem_of_nil in Hin|].
  destruct ((0 <? len pods)%nat || (0 <? len services)%nat);
    [|by apply elem_of_nil in Hin].
  apply list_elem_of_singleton in Hin as ->. simpl. split; [done|].
  intros Hgiven. rewrite (namespacesToSearch_given _ _ Hgiven) in Hns. by simplify_eq.
Qed.

Lemma context_results_provenance_name w kubeconfigPath name namespaces contexts r :
  r ∈ contexts ≫= contextResultsByName w kubeconfigPath name namespaces ->
  PodResultWithContext.Context r ∈ contexts
  /\ (namespaces <> [] -> PodResultWithContext.Namespace r ∈ namespaces).
Proof.
  intros Hin. apply list_elem_of_bind in Hin as (contextName & Hin & Hcontext).
  unfold contextResultsByName in Hin.
  destruct (NewK8sClient w kubeconfigPath contextName []) as [[client|] [err|]];
    try by apply elem_of_nil in Hin.
  destruct (namespacesToSearch client namespaces) as [nsNames|] eqn:Hns;
    [|by apply elem_of_nil in Hin].
  apply list_elem_of_bind in Hin as (nsName & Hin & HnsName).
  unfold scopeResultByName in Hin.
  destruct (SearchByName (withNamespaces client [nsName]) name) as [pods [err|]];
    [by apply elem_of_nil in Hin|].
  destruct (0 <? len pods)%nat; [|by apply elem_of_nil in Hin].
  apply list_elem_of_singleton in Hin as ->. simpl. split; [done|].
  intros Hgiven. rewrite (namespacesToSearch_given _ _ Hgiven) in Hns. by simplify_eq.
Qed.

Lemma length_bind_le {A B : Type} (f : A -> list B) (k : nat) (l : list A) :
  (forall x, length (f x) <= k)%nat -> (length (l ≫= f) <= length l * k)%nat.
Proof.
  intros Hf. induction l as [|x l IH]; [done|].
  rewrite bind_cons, length_app. simpl. specialize (Hf x). lia.
Qed.

Lemma length_scopeResultByIP client contextName ip nsName :
  (length (scopeResultByIP client contextName ip nsName) <= 1)%nat.
Proof.
  unfold scopeResultByIP.
  destruct (SearchByIP _ ip) as [[pods services] [err|]]; [simpl; lia|].
  destruct ((0 <? len pods)%nat || (0 <? len services)%nat); simpl; lia.
Qed.

Lemma length_scopeResultByName client contextName name nsName :
  (length (scopeResultByName client contextName name nsName) <= 1)%nat.
Proof.
  unfold scopeResultByName.
  destruct (SearchByName _ name) as [pods [err|]]; [simpl; lia|].
  destruct (0 <? len pods)%nat; simpl; lia.
Qed.

(** Where the results come from. Every result of an aggregate search names
    a context of the kubeconfig and, when a namespace list was given, a
    namespace of that list; there is at most one result for each pair of a
    context and an entry of the list, so at most as many results as
    contexts times listed namespaces. *)
Theorem results_come_from_given_scopes (w : World.t) (kubeconfigPath query : string)
    (namespaces : list string) (config : Config.t) :
  LoadKubeConfig w kubeconfigPath = (Some config, None) ->
  namespaces <> [] ->
  (forall r, r ∈ elems (fst (SearchByIPAllContexts w kubeconfigPath query namespaces)) ->
             SearchResultWithContext.Context r ∈ GetContexts config
             /\ SearchResultWithContext.Namespace r ∈ namespaces)
  /\ (forall r, r ∈ elems (fst (SearchByNameAllContexts w kubeconfigPath query namespaces)) ->
                PodResultWithContext.Context r ∈ GetContexts config
                /\ PodResultWithContext.Namespace r ∈ namespaces)
  /\ (len (fst (SearchByIPAllContexts w kubeconfigPath query namespaces))
      <= length (GetContexts config) * length namespaces)%nat
  /\ (len (fst (SearchByNameAllContexts w kubeconfigPath query namespaces))
      <= length (GetContexts config) * length namespaces)%nat.
Proof.
  intros Hload Hgiven.
  rewrite (SearchByIPAllContexts_loaded _ _ _ _ _ Hload).
  rewrite (SearchByNameAllContexts_loaded _ _ _ _ _ Hload). simpl.
  repeat split.
  - by eapply context_results_provenance_ip.
  - by eapply context_results_provenance_ip.
  - by eapply context_results_provenance_name.
  - by eapply context_results_provenance_name.
  - apply length_bind_le. intros contextName. unfold contextResultsByIP.
    destruct (NewK8sClient w kubeconfigPath contextName []) as [[client|] [err|]];
      simpl; try lia.
    rewrite (namespacesToSearch_given _ _ Hgiven).
    pose proof (length_bind_le (scopeResultByIP client contextName query) 1 namespaces
                  (length_scopeResultByIP client contextName query)). lia.
  - apply length_bind_le. intros contextName. unfold contextResultsByName.
    destruct (NewK8sClient w kubeconfigPath contextName []) as [[client|] [err|]];
      simpl; try lia.
    rewrite (namespacesToSearch_given _ _ Hgiven).
    pose proof (length_bind_le (scopeResultByName client contextName query) 1 namespaces
                  (length_scopeResultByName client contextName query)). lia.
Qed.

Lemma results_come_from_given_scopes_witness :
  (len (fst (SearchByIPAllContexts Sample.world "/kube/config" "192.168.1.1"
               ["default"; "audit"]))
   <= length (GetContexts Sample.config) * length ["default"; "audit"])%nat.
Proof.
  apply (results_come_from_given_scopes Sample.world "/kube/config" "192.168.1.1"
           ["default"; "audit"] Sample.config); [reflexivity | discriminate].
Defined.

Lemma rangeNamespacesByIP_same_lists cs cs' ip namespaces pods services :
  SameLists cs cs' ->
  rangeNamespacesByIP cs ip namespaces pods services
  = rangeNamespacesByIP cs' ip namespaces pods services.
Proof.
  intros [Hpods Hsvcs]. revert pods services.
  induction namespaces as [|ns namespaces IH]; intros pods services; simpl; [done|].
  rewrite Hpods, Hsvcs.
  destruct (Clientset.ListPods cs' ns ListOptions.zero) as [podItems|e].
  - destruct (Clientset.ListServices cs' ns ListOptions.zero) as [svcItems|e];
      [by apply IH|].
    destruct (isPermissionError (Some e)); [by apply IH|done].
  - destruct (isPermissionError (Some e)); [by apply IH|done].
Qed.

Lemma rangeNamespacesByName_same_lists cs cs' name namespaces pods :
  SameLists cs cs' ->
  rangeNamespacesByName cs name namespaces pods
  = rangeNamespacesByName cs' name namespaces pods.
Proof.
  intros [Hpods _]. revert pods.
  induction namespaces as [|ns namespaces IH]; intros pods; simpl; [done|].
  rewrite Hpods.
  destruct (Clientset.ListPods cs' ns ListOptions.zero) as [podItems|e]; [by apply IH|].
  destruct (isPermissionError (Some e)); [by apply IH|done].
Qed.

(** How two installations that differ at most in namespace listing build
    their clients: both fail, or both succeed with clients that answer the
    pod and service lists alike. *)
Lemma NewK8sClient_same_lists w w' kubeconfigPath contextName namespaces :
  SameButNamespaceListing w w' ->
  match NewK8sClient w kubeconfigPath contextName namespaces,
        NewK8sClient w' kubeconfigPath contextName namespaces with
  | (Some client, None), (Some client', None) =>
      SameLists (K8sClient.Clientset client) (K8sClient.Clientset client')
  | (Some _, None), _ | _, (Some _, None) => False
  | _, _ => True
  end.
Proof.
  intros (Hload & Hconfig & Hnew).
  unfold NewK8sClient, LoadKubeConfig. rewrite Hload, Hconfig.
  destruct (World.LoadFromFile w' kubeconfigPath) as [config|e]; [|done].
  destruct (World.ClientConfig w' kubeconfigPath _) as [restConfig|e]; [|done].
  specialize (Hnew restConfig).
  destruct (World.NewForConfig w restConfig) as [cs|e],
           (World.NewForConfig w' restConfig) as [cs'|e']; done.
Qed.

(** With an explicit namespace list the aggregate searches do not depend on
    the listing of namespaces: two installations whose clusters answer the
    pod and service lists alike give the same results, whatever they answer
    when asked for their namespaces. *)
Theorem explicit_namespaces_need_no_listing (w w' : World.t)
    (kubeconfigPath query : string) (namespaces : list string) :
  SameButNamespaceListing w w' ->
  namespaces <> [] ->
  SearchByIPAllContexts w kubeconfigPath query namespaces
  = SearchByIPAllContexts w' kubeconfigPath query namespaces
  /\ SearchByNameAllContexts w kubeconfigPath query namespaces
     = SearchByNameAllContexts w' kubeconfigPath query namespaces.
Proof.
  intros Hsame Hgiven.
  assert (forall contextName,
             contextResultsByIP w kubeconfigPath query namespaces contextName
             = contextResultsByIP w' kubeconfigPath query namespaces contextName) as Hip.
  { intros contextName. unfold contextResultsByIP.
    pose proof (NewK8sClient_same_lists w w' kubeconfigPath contextName [] Hsame) as Hnew.
    destruct (NewK8sClient w kubeconfigPath contextName []) as [[client|] [e|]],
             (NewK8sClient w' kubeconfigPath contextName []) as [[client'|] [e'|]];
      try done.
    rewrite !namespacesToSearch_given by done.
    apply list_bind_ext; [|done]. intros nsName.
    unfold scopeResultByIP, SearchByIP, withNamespaces.
    cbn [K8sClient.Clientset K8sClient.Namespaces].
    by rewrite (rangeNamespacesByIP_same_lists _ _ _ _ _ _ Hnew). }
  assert (forall contextName,
             contextResultsByName w kubeconfigPath query namespaces contextName
             = contextResultsByName w' kubeconfigPath query namespaces contextName)
    as Hname.
  { intros contextName. unfold contextResultsByName.
    pose proof (NewK8sClient_same_lists w w' kubeconfigPath contextName [] Hsame) as Hnew.
    destruct (NewK8sClient w kubeconfigPath contextName []) as [[client|] [e|]],
             (NewK8sClient w' kubeconfigPath contextName []) as [[client'|] [e'|]];
      try done.
    rewrite !namespacesToSearch_given by done.
    apply list_bind_ext; [|done]. intros nsName.
    unfold scopeResultByName, SearchByName, withNamespaces.
    cbn [K8sClient.Clientset K8sClient.Namespaces].
    by rewrite (rangeNamespacesByName_same_lists _ _ _ _ _ Hnew). }
  destruct Hsame as (Hload & _ & _).
  unfold SearchByIPAllContexts, SearchByNameAllContexts, LoadKubeConfig.
  rewrite Hload.
  destruct (World.LoadFromFile w' kubeconfigPath) as [config|e]; [|done].
  rewrite !rangeContextsByIP_bind, !rangeContextsByName_bind. simpl.
  split; do 2 f_equal; by apply list_bind_ext.
Qed.

Lemma explicit_namespaces_need_no_listing_witness :
  SearchByIPAllContexts Sample.world "/kube/config" "192.168.1.1" ["default"; "shop"]
  = SearchByIPAllContexts Sample.restrictedWorld "/kube/config" "192.168.1.1"
      ["default"; "shop"].
Proof.
  apply (explicit_namespaces_need_no_listing Sample.world Sample.restrictedWorld
           "/kube/config" "192.168.1.1" ["default"; "shop"]); [|discriminate].
  split; [reflexivity|]. split; [reflexivity|].
  intros restConfig. simpl.
  destruct (String.eqb (RestConfig.Host restConfig) "https://east:6443");
    split; reflexivity.
Defined.

(** ** Properties of the client factory and the owner resolver *)

Lemma NewK8sClient_keeps (w : World.t) (kubeconfigPath contextName : string)
    (namespaces : list string) :
  (forall client,
      NewK8sClient w kubeconfigPath contextName namespaces = (Some client, None) ->
      K8sClient.Namespaces client = namespaces
      /\ forall namespaces',
          NewK8sClient w kubeconfigPath contextName namespaces'
          = (Some (withNamespaces client namespaces'), None))
  /\ (forall err namespaces',
         snd (NewK8sClient w kubeconfigPath contextName namespaces) = Some err ->
         NewK8sClient w kubeconfigPath contextName namespaces' = (None, Some err)).
Proof.
  unfold NewK8sClient, LoadKubeConfig.
  destruct (World.LoadFromFile w kubeconfigPath) as [config|e]; simpl.
  - destruct (World.ClientConfig w kubeconfigPath _) as [restConfig|e]; simpl.
    + destruct (World.NewForConfig w restConfig) as [clientset|e]; simpl.
      * split; [|done]. intros client H. by simplify_eq.
      * split; [done|]. intros err ns' H. by simplify_eq.
    + split; [done|]. intros err ns' H. by simplify_eq.
  - split; [done|]. intros err ns' H. by simplify_eq.
Qed.

(** An empty context name selects the current context of the kubeconfig.
    The namespaces handed to [NewK8sClient] are kept in the client and have
    no part in whether the construction succeeds: the same call with other
    namespaces gives the same client with those namespaces. *)
Theorem NewK8sClient_context_and_namespaces (w : World.t)
    (kubeconfigPath contextName : string) (namespaces : list string) :
  (forall config,
      LoadKubeConfig w kubeconfigPath = (Some config, None) ->
      NewK8sClient w kubeconfigPath "" namespaces
      = NewK8sClient w kubeconfigPath (Config.CurrentContext config) namespaces)
  /\ (forall client,
         NewK8sClient w kubeconfigPath contextName namespaces = (Some client, None) ->
         K8sClient.Namespaces client = namespaces
         /\ forall namespaces',
             NewK8sClient w kubeconfigPath contextName namespaces'
             = (Some (withNamespaces client namespaces'), None))
  /\ (forall err namespaces',
         snd (NewK8sClient w kubeconfigPath contextName namespaces) = Some err ->
         NewK8sClient w kubeconfigPath contextName namespaces' = (None, Some err)).
Proof.
  split.
  - intros config. apply NewK8sClient_current.
  - apply NewK8sClient_keeps.
Qed.

Lemma NewK8sClient_context_and_namespaces_witness :
  NewK8sClient Sample.world "/kube/config" "" ["default"]
  = NewK8sClient Sample.world "/kube/config" "east" ["default"]
  /\ NewK8sClient Sample.world "/kube/config" "east" ["default"]
     = (Some (Sample.eastClient ["default"]), None).
Proof.
  split; [|reflexivity].
  apply (proj1 (NewK8sClient_context_and_namespaces Sample.world "/kube/config" ""
                  ["default"]) Sample.config).
  reflexivity.
Defined.

Lemma rangeOwners_sound owners deploymentName :
  rangeOwners owners = (deploymentName, None) ->
  exists owner, owner ∈ owners
                /\ OwnerReference.Kind owner = "Deployment"
                /\ OwnerReference.Name owner = deploymentName.
Proof.
  induction owners as [|o owners IH]; simpl; [done|].
  destruct (String.eqb_spec (OwnerReference.Kind o) "Deployment") as [Hkind|_].
  - intros H. simplify_eq. exists o. split; [by left|done].
  - intros H. destruct (IH H) as (owner & Hin & Hrest).
    exists owner. split; [by right|done].
Qed.

Lemma rangeOwners_failure owners deploymentName err :
  rangeOwners owners = (deploymentName, Some err) ->
  deploymentName = ""
  /\ Forall (fun o => OwnerReference.Kind o <> "Deployment") owners.
Proof.
  induction owners as [|o owners IH]; simpl.
  - intros H. by simplify_eq.
  - destruct (String.eqb_spec (OwnerReference.Kind o) "Deployment") as [Hkind|Hkind];
      [done|].
    intros H. destruct (IH H) as [-> Hrest]. by split; [|constructor].
Qed.

(** [GetDeploymentByReplicaSet] returns without error exactly when the
    ReplicaSet can be fetched and has an owner reference of kind Deployment.
    The name it returns is the name of such an owner reference of that
    ReplicaSet, and whenever it returns an error the name is empty. *)
Theorem GetDeploymentByReplicaSet_succeeds_iff (c : K8sClient.t)
    (namespace replicaSetName : string) :
  (snd (GetDeploymentByReplicaSet c namespace replicaSetName) = None
   <-> exists rs owner,
       Clientset.GetReplicaSet (K8sClient.Clientset c) namespace replicaSetName = Ok rs
       /\ owner ∈ ReplicaSet.OwnerReferences rs
       /\ OwnerReference.Kind owner = "Deployment")
  /\ (forall deploymentName,
         GetDeploymentByReplicaSet c namespace replicaSetName = (deploymentName, None) ->
         exists rs owner,
           Clientset.GetReplicaSet (K8sClient.Clientset c) namespace replicaSetName = Ok rs
           /\ owner ∈ ReplicaSet.OwnerReferences rs
           /\ OwnerReference.Kind owner = "Deployment"
           /\ OwnerReference.Name owner = deploymentName)
  /\ (forall deploymentName err,
         GetDeploymentByReplicaSet c namespace replicaSetName = (deploymentName, Some err) ->
         deploymentName = "").
Proof.
  unfold GetDeploymentByReplicaSet.
  destruct (Clientset.GetReplicaSet _ namespace replicaSetName) as [rs|e].
  - destruct (ReplicaSet.OwnerReferences rs) as [|o owners] eqn:Howners.
    + simpl. repeat split; try done.
      * intros (rs' & owner & H & Hin & _). simplify_eq. rewrite Howners in Hin.
        by apply elem_of_nil in Hin.
      * intros d err H. by simplify_eq.
    + change (length (o :: owners) =? 0)%nat with false. cbv iota.
      repeat split.
      * destruct (rangeOwners (o :: owners)) as [d [err|]] eqn:Hrun; [done|].
        intros _. destruct (rangeOwners_sound _ _ Hrun) as (owner & Hin & Hkind & _).
        exists rs, owner. by rewrite Howners.
      * intros (rs' & owner & H & Hin & Hkind). simplify_eq. rewrite Howners in Hin.
        destruct (rangeOwners (o :: owners)) as [d [err|]] eqn:Hrun; [|done].
        destruct (rangeOwners_failure _ _ _ Hrun) as [_ Hnone].
        rewrite Forall_forall in Hnone. by destruct (Hnone owner Hin).
      * intros d Hrun. destruct (rangeOwners_sound _ _ Hrun) as (owner & Hin & Hrest).
        exists rs, owner. by rewrite Howners.
      * intros d err Hrun. by destruct (rangeOwners_failure _ _ _ Hrun).
  - simpl. repeat split; try done.
    + intros (rs & owner & H & _). discriminate.
    + intros d err H. by simplify_eq.
Qed.

Lemma GetDeploymentByReplicaSet_succeeds_iff_witness :
  snd (GetDeploymentByReplicaSet (Sample.eastClient ["default"]) "default"
         "nginx-deployment-xyz") = None.
Proof.
  apply (proj1 (GetDeploymentByReplicaSet_succeeds_iff (Sample.eastClient ["default"])
                  "default" "nginx-deployment-xyz")).
  exists (ReplicaSet.mk "nginx-deployment-xyz" "default"
            [OwnerReference.mk "HorizontalPodAutoscaler" "hpa";
             OwnerReference.mk "Deployment" "nginx-deployment";
             OwnerReference.mk "Deployment" "second"]),
    (OwnerReference.mk "Deployment" "second").
  split; [reflexivity|]. split; [|reflexivity].
  right. right. left.
Defined.

(** ** Properties of the command-line entry points *)

Lemma aggregate_error_is_load_error w kubeconfigPath query namespaces :
  snd (SearchByIPAllContexts w kubeconfigPath query namespaces)
  = snd (LoadKubeConfig w kubeconfigPath)
  /\ snd (SearchByNameAllContexts w kubeconfigPath query namespaces)
     = snd (LoadKubeConfig w kubeconfigPath).
Proof.
  destruct (LoadKubeConfig_cases w kubeconfigPath) as [[config Hload]|[err Hload]].
  - rewrite (SearchByIPAllContexts_loaded _ _ _ _ _ Hload).
    rewrite (SearchByNameAllContexts_loaded _ _ _ _ _ Hload). by rewrite Hload.
  - unfold SearchByIPAllContexts, SearchByNameAllContexts. by rewrite Hload.
Qed.

Lemma SearchK8sByIPAllContexts_fails_iff (ParseIP : string -> option (list Z))
    (w : World.t) (kubeconfigPath query : string) (namespaces : list string) :
  cmd.SearchK8sByIPAllContexts ParseIP w kubeconfigPath query namespaces <> None
  <-> ValidateIP ParseIP query = false \/ snd (LoadKubeConfig w kubeconfigPath) <> None.
Proof.
  unfold cmd.SearchK8sByIPAllContexts.
  destruct (ValidateIP ParseIP query); simpl; [|by split; [left|]].
  pose proof (proj1 (aggregate_error_is_load_error w kubeconfigPath query
                       (cmd.discoverNamespaces w kubeconfigPath namespaces))) as Herr.
  destruct (SearchByIPAllContexts _ _ _ _) as [results [err|]]; simpl in Herr;
    rewrite <- Herr; split; intros H; try done; [by right|by destruct H].
Qed.

Lemma SearchK8sByNameAllContexts_fails_iff (w : World.t)
    (kubeconfigPath query : string) (namespaces : list string) :
  cmd.SearchK8sByNameAllContexts w kubeconfigPath query namespaces <> None
  <-> query = "" \/ snd (LoadKubeConfig w kubeconfigPath) <> None.
Proof.
  unfold cmd.SearchK8sByNameAllContexts.
  destruct (String.eqb_spec query "") as [->|Hname]; [by split; [left|]|].
  pose proof (proj2 (aggregate_error_is_load_error w kubeconfigPath query
                       (cmd.discoverNamespaces w kubeconfigPath namespaces))) as Herr.
  destruct (SearchByNameAllContexts _ _ _ _) as [results [err|]]; simpl in Herr;
    rewrite <- Herr; split; intros H; try done; [by right|by destruct H].
Qed.

(** The aggregate commands fail on their input or on the kubeconfig and on
    nothing else: the IP command returns an error if and only if the
    address is not valid or the kubeconfig cannot be loaded, the name
    command if and only if the name is empty or the kubeconfig cannot be
    loaded. No answer of any cluster makes them fail. *)
Theorem aggregate_commands_fail_iff (ParseIP : string -> option (list Z))
    (w : World.t) (kubeconfigPath query : string) (namespaces : list string) :
  (cmd.SearchK8sByIPAllContexts ParseIP w kubeconfigPath query namespaces <> None
   <-> ValidateIP ParseIP query = false \/ snd (LoadKubeConfig w kubeconfigPath) <> None)
  /\ (cmd.SearchK8sByNameAllContexts w kubeconfigPath query namespaces <> None
      <-> query = "" \/ snd (LoadKubeConfig w kubeconfigPath) <> None).
Proof.
  split.
  - apply SearchK8sByIPAllContexts_fails_iff.
  - apply SearchK8sByNameAllContexts_fails_iff.
Qed.

(** The single-context commands are stricter. [SearchK8sByIP] returns a nil
    error if and only if the address is valid, the client of the context can
    be constructed and every list call that fails in the configured
    namespaces fails as forbidden or unauthorized; [SearchK8sByName]
    likewise for a non-empty name and the pod lists. One other failure in
    one namespace fails the command. *)
Theorem single_context_commands_succeed_iff (ParseIP : string -> option (list Z))
    (w : World.t) (config : cmd.K8sSearchConfig.t) (query : string) :
  (cmd.SearchK8sByIP ParseIP w config query = None
   <-> ValidateIP ParseIP query = true
       /\ exists client,
           NewK8sClient w (cmd.K8sSearchConfig.KubeconfigPath config)
             (cmd.K8sSearchConfig.ContextName config)
             (cmd.K8sSearchConfig.Namespaces config) = (Some client, None)
           /\ OnlyPermissionFailures (K8sClient.Clientset client)
                (cmd.K8sSearchConfig.Namespaces config))
  /\ (cmd.SearchK8sByName w config query = None
      <-> query <> ""
          /\ exists client,
              NewK8sClient w (cmd.K8sSearchConfig.KubeconfigPath config)
                (cmd.K8sSearchConfig.ContextName config)
                (cmd.K8sSearchConfig.Namespaces config) = (Some client, None)
              /\ OnlyPermissionPodFailures (K8sClient.Clientset client)
                   (cmd.K8sSearchConfig.Namespaces config)).
Proof.
  unfold cmd.SearchK8sByIP, cmd.SearchK8sByName.
  pose proof (NewK8sClient_keeps w
                (cmd.K8sSearchConfig.KubeconfigPath config)
                (cmd.K8sSearchConfig.ContextName config)
                (cmd.K8sSearchConfig.Namespaces config)) as (Hkeeps & _).
  pose proof (LoadKubeConfig_cases w (cmd.K8sSearchConfig.KubeconfigPath config)) as Hload.
  destruct (NewK8sClient w _ _ _) as [[client|] [err|]] eqn:Hclient.
  - split; (split; [by destruct (ValidateIP _ _) || destruct (String.eqb _ _)|]).
    + by intros (_ & client' & H & _).
    + by intros (_ & client' & H & _).
  - destruct (Hkeeps client eq_refl) as [Hns _]. split.
    + destruct (ValidateIP ParseIP query); simpl; [|by split; [|intros [? _]]].
      pose proof (SearchByIP_nil_error_iff client query) as Hiff.
      rewrite Hns in Hiff.
      destruct (SearchByIP client query) as [[pods services] [err|]]; simpl in Hiff.
      * split; [done|]. intros (_ & client' & H & Hperm). simplify_eq.
        by apply Hiff in Hperm.
      * split; [|done]. intros _. split; [done|]. exists client. split; [done|].
        by apply Hiff.
    + destruct (String.eqb_spec query "") as [->|Hname]; [by split; [|intros [? _]]|].
      pose proof (rangeNamespacesByName_error (K8sClient.Clientset client) query
                    (K8sClient.Namespaces client) []) as Hiff.
      rewrite Hns in Hiff. unfold SearchByName. rewrite Hns.
      destruct (rangeNamespacesByName _ query _ []) as [pods [err|]]; simpl in Hiff.
      * split; [done|]. intros (_ & client' & H & Hperm). simplify_eq.
        by apply Hiff in Hperm.
      * split; [|done]. intros _. split; [done|]. exists client. split; [done|].
        by apply Hiff.
  - split; (split; [by destruct (ValidateIP _ _) || destruct (String.eqb _ _)|]).
    + by intros (_ & client' & H & _).
    + by intros (_ & client' & H & _).
  - exfalso. unfold NewK8sClient in Hclient.
    destruct Hload as [[c Hc]|[e He]]; rewrite ?Hc, ?He in Hclient; [|done].
    destruct (World.ClientConfig w _ _); [|done].
    by destruct (World.NewForConfig w _).
Qed.

(** The auto-detecting command, given that the empty string is no IP
    address: it returns an error if and only if the query is empty or the
    kubeconfig cannot be loaded, and the error is never the one for an
    invalid IP address, whose check in the IP search no query of this
    command can fail. *)
Theorem search_command_fails_iff (ParseIP : string -> option (list Z))
    (w : World.t) (kubeconfigPath : string) (namespaces : list string)
    (query : string) :
  ParseIP "" = None ->
  (main.search ParseIP w kubeconfigPath namespaces query <> None
   <-> query = "" \/ snd (LoadKubeConfig w kubeconfigPath) <> None)
  /\ main.search ParseIP w kubeconfigPath namespaces query
     <> Some (errorString ("invalid IP address: " +:+ query))
  /\ (query = "" ->
      main.search ParseIP w kubeconfigPath namespaces query
      = Some (errorString "name cannot be empty")).
Proof.
  intros Hempty. unfold main.search, cmd.ValidateIP.
  pose proof (SearchK8sByIPAllContexts_fails_iff ParseIP w kubeconfigPath query namespaces)
    as Hip.
  pose proof (SearchK8sByNameAllContexts_fails_iff w kubeconfigPath query namespaces)
    as Hname.
  destruct (ValidateIP ParseIP query) eqn:Hvalid.
  - assert (query <> "") as Hquery.
    { intros ->. unfold ValidateIP in Hvalid. by rewrite Hempty in Hvalid. }
    repeat split.
    + intros H. apply Hip in H as [H|H]; [done|by right].
    + intros [H|H]; [done|]. apply Hip. by right.
    + unfold cmd.SearchK8sByIPAllContexts. rewrite Hvalid. simpl.
      pose proof (proj1 (aggregate_error_is_load_error w kubeconfigPath query
                           (cmd.discoverNamespaces w kubeconfigPath namespaces))) as Herr.
      destruct (SearchByIPAllContexts _ _ _ _) as [results [err|]]; [|done].
      simpl in Herr. unfold LoadKubeConfig in Herr.
      destruct (World.LoadFromFile w kubeconfigPath); simpl in Herr; [done|].
      intros H. by simplify_eq.
    + done.
  - split; [apply Hname|]. split.
    + unfold cmd.SearchK8sByNameAllContexts.
      destruct (String.eqb query ""); [done|].
      pose proof (proj2 (aggregate_error_is_load_error w kubeconfigPath query
                           (cmd.discoverNamespaces w kubeconfigPath namespaces))) as Herr.
      destruct (SearchByNameAllContexts _ _ _ _) as [results [err|]]; [|done].
      simpl in Herr. unfold LoadKubeConfig in Herr.
      destruct (World.LoadFromFile w kubeconfigPath); simpl in Herr; [done|].
      intros H. by simplify_eq.
    + intros ->. done.
Qed.

Lemma search_command_fails_iff_witness :
  main.search Sample.parseIP Sample.world "/kube/config" [] ""
  = Some (errorString "name cannot be empty")
  /\ main.search Sample.parseIP Sample.world "/kube/config" [] "10.1.0.1" = None.
Proof.
  split; [|reflexivity].
  apply (search_command_fails_iff Sample.parseIP Sample.world "/kube/config" [] "");
    reflexivity.
Defined.




(** ** The namespace report and the namespaces flag *)

Lemma rangePermissions_names cs items permissions :
  cmd.NamespacePermission.Name <$> cmd.rangePermissions cs items permissions
  = (cmd.NamespacePermission.Name <$> permissions) ++ (Namespace.Name <$> items).
Proof.
  revert permissions. induction items as [|ns items IH]; intros permissions.
  - simpl. by rewrite app_nil_r.
  - cbn [cmd.rangePermissions]. rewrite IH, fmap_app, <- app_assoc.
    by destruct (Clientset.ListPods cs (Namespace.Name ns) (ListOptions.mk 1)).
Qed.

Lemma rangePermissions_access cs items permissions :
  (forall perm, perm ∈ permissions ->
                cmd.NamespacePermission.HasAccess perm = true
                <-> Probe cs (cmd.NamespacePermission.Name perm)) ->
  forall perm, perm ∈ cmd.rangePermissions cs items permissions ->
               cmd.NamespacePermission.HasAccess perm = true
               <-> Probe cs (cmd.NamespacePermission.Name perm).
Proof.
  revert permissions. induction items as [|ns items IH]; intros permissions Hacc; [done|].
  cbn [cmd.rangePermissions]. apply IH.
  intros perm Hin. apply elem_of_app in Hin as [Hin|Hin]; [by apply Hacc|].
  apply list_elem_of_singleton in Hin as ->. unfold Probe.
  destruct (Clientset.ListPods cs (Namespace.Name ns) (ListOptions.mk 1)) as [found|e]
    eqn:Hprobe; simpl; rewrite Hprobe.
  - split; [by exists found|done].
  - split; [done|]. intros [found H]. discriminate.
Qed.

Lemma rangeAccessible_filter cs permissions accessible :
  (forall perm, perm ∈ permissions ->
                cmd.NamespacePermission.HasAccess perm = true
                <-> Probe cs (cmd.NamespacePermission.Name perm)) ->
  cmd.rangeAccessible permissions accessible
  = accessible ++ filter (Probe cs) (cmd.NamespacePermission.Name <$> permissions).
Proof.
  revert accessible.
  induction permissions as [|perm permissions IH]; intros accessible Hacc.
  - simpl. by rewrite app_nil_r.
  - cbn [cmd.rangeAccessible]. rewrite fmap_cons, filter_cons.
    assert (forall p, p ∈ permissions ->
                      cmd.NamespacePermission.HasAccess p = true
                      <-> Probe cs (cmd.NamespacePermission.Name p)) as Hrest.
    { intros p Hin. apply Hacc. by right. }
    pose proof (Hacc perm ltac:(by left)) as Hperm.
    destruct (cmd.NamespacePermission.HasAccess perm).
    + rewrite decide_True by by apply Hperm. by rewrite IH, <- app_assoc.
    + rewrite decide_False by (intros H; by apply Hperm in H). by apply IH.
Qed.

Lemma rangeAccessCounts_filter cs permissions accessibleCount deniedCount :
  (forall perm, perm ∈ permissions ->
                cmd.NamespacePermission.HasAccess perm = true
                <-> Probe cs (cmd.NamespacePermission.Name perm)) ->
  fst (cmd.rangeAccessCounts permissions accessibleCount deniedCount)
  = (accessibleCount
     + length (filter (Probe cs) (cmd.NamespacePermission.Name <$> permissions)))%nat
  /\ (fst (cmd.rangeAccessCounts permissions accessibleCount deniedCount)
      + snd (cmd.rangeAccessCounts permissions accessibleCount deniedCount)
      = accessibleCount + deniedCount + length permissions)%nat.
Proof.
  revert accessibleCount deniedCount.
  induction permissions as [|perm permissions IH]; intros accessibleCount deniedCount Hacc.
  - simpl. lia.
  - cbn [cmd.rangeAccessCounts]. rewrite fmap_cons, filter_cons.
    assert (forall p, p ∈ permissions ->
                      cmd.NamespacePermission.HasAccess p = true
                      <-> Probe cs (cmd.NamespacePermission.Name p)) as Hrest.
    { intros p Hin. apply Hacc. by right. }
    pose proof (Hacc perm ltac:(by left)) as Hperm.
    destruct (cmd.NamespacePermission.HasAccess perm).
    + rewrite decide_True by by apply Hperm.
      destruct (IH (accessibleCount + 1)%nat deniedCount Hrest) as [-> ->]. simpl. lia.
    + rewrite decide_False by (intros H; by apply Hperm in H).
      destruct (IH accessibleCount (deniedCount + 1)%nat Hrest) as [-> ->]. simpl. lia.
Qed.

(** The namespace report agrees with the discovery of the search. Where
    [ListK8sNamespaces] prints its table, it has one entry for each listed
    namespace, in order, marked accessible exactly when the probe of that
    namespace succeeds; the two counters add up to the number of
    namespaces; and the accessible namespaces it counts and prints for the
    namespaces flag, joined by commas, are the very list
    [GetAccessibleNamespaces] returns for the same context. *)
Theorem namespace_report_agrees_with_discovery (w : World.t)
    (kubeconfigPath contextName : string) (client : K8sClient.t)
    (items : list Namespace.t) :
  NewK8sClient w kubeconfigPath contextName [] = (Some client, None) ->
  Clientset.ListNamespaces (K8sClient.Clientset client) ListOptions.zero = Ok items ->
  items <> [] ->
  exists report accessible,
    cmd.ListK8sNamespaces w kubeconfigPath contextName = (Some report, None)
    /\ cmd.GetAccessibleNamespaces w kubeconfigPath contextName = (Some accessible, None)
    /\ cmd.NamespacePermission.Name <$> cmd.NamespaceReport.permissions report
       = Namespace.Name <$> items
    /\ (forall perm,
           perm ∈ cmd.NamespaceReport.permissions report ->
           cmd.NamespacePermission.HasAccess perm = true
           <-> Probe (K8sClient.Clientset client) (cmd.NamespacePermission.Name perm))
    /\ (cmd.NamespaceReport.accessibleCount report
        + cmd.NamespaceReport.deniedCount report = length items)%nat
    /\ cmd.NamespaceReport.accessibleCount report = length accessible
    /\ cmd.NamespaceReport.flagLine report
       = match accessible with
         | [] => None
         | _ :: _ => Some (strings.Join accessible ",")
         end.
Proof.
  intros Hclient Hlist Hitems.
  unfold cmd.ListK8sNamespaces. rewrite Hclient, Hlist.
  rewrite (GetAccessibleNamespaces_ok _ _ _ _ _ Hclient Hlist).
  destruct items as [|ns items]; [done|].
  change (length (ns :: items) =? 0)%nat with false. cbv iota.
  set (cs := K8sClient.Clientset client).
  set (permissions := cmd.rangePermissions cs (ns :: items) []).
  assert (forall perm, perm ∈ permissions ->
                       cmd.NamespacePermission.HasAccess perm = true
                       <-> Probe cs (cmd.NamespacePermission.Name perm)) as Hacc.
  { apply rangePermissions_access. intros perm Hin. by apply elem_of_nil in Hin. }
  assert (cmd.NamespacePermission.Name <$> permissions = Namespace.Name <$> (ns :: items))
    as Hnames.
  { unfold permissions. by rewrite rangePermissions_names. }
  destruct (rangeAccessCounts_filter cs permissions 0 0 Hacc) as [Hcount Hsum].
  destruct (cmd.rangeAccessCounts permissions 0 0) as [accessibleCount deniedCount].
  simpl in Hcount, Hsum. rewrite Hnames in Hcount.
  rewrite (rangeAccessible_filter cs permissions [] Hacc), Hnames. simpl app.
  eexists _, _. split; [reflexivity|]. split; [reflexivity|]. simpl.
  split; [done|]. split; [done|].
  split; [rewrite Hsum, <- (length_fmap cmd.NamespacePermission.Name), Hnames;
          by rewrite length_fmap|].
  split; [done|].
  rewrite Hcount.
  change (Namespace.Name ns :: list_fmap _ _ Namespace.Name items)
    with (Namespace.Name <$> ns :: items).
  by destruct (filter (Probe cs) (Namespace.Name <$> ns :: items)).
Qed.

Lemma namespace_report_agrees_with_discovery_witness :
  exists report accessible,
    cmd.ListK8sNamespaces Sample.world "/kube/config" "east" = (Some report, None)
    /\ cmd.GetAccessibleNamespaces Sample.world "/kube/config" "east"
       = (Some accessible, None)
    /\ cmd.NamespaceReport.accessibleCount report = length accessible.
Proof.
  destruct (namespace_report_agrees_with_discovery Sample.world "/kube/config" "east"
              (Sample.eastClient [])
              [Namespace.mk "default" "Active"; Namespace.mk "locked" "Active"]
              eq_refl eq_refl ltac:(discriminate))
    as (report & accessible & H1 & H2 & _ & _ & _ & H3 & _).
  exists report, accessible. split; [exact H1|]. split; [exact H2|exact H3].
Defined.

Lemma CommaFree_String (a : ascii) (s : string) :
  CommaFree (String a s) <-> a <> ","%char /\ CommaFree s.
Proof.
  unfold CommaFree. rewrite IsSubstring_String, prefix_app. split.
  - intros H. split.
    + intros ->. apply H. left. by exists s.
    + intros Hs. apply H. by right.
  - intros [Ha Hs] [[after H]|H]; [|done].
    injection H as Hcomma _. by destruct Ha.
Qed.

Lemma Split_nonempty (s : string) (sep : ascii) : strings.Split s sep <> [].
Proof.
  induction s as [|a s IH]; simpl; [done|].
  destruct (Ascii.eqb a sep); [done|]. by destruct (strings.Split s sep).
Qed.

Lemma Split_comma_free (s : string) : CommaFree s -> strings.Split s "," = [s].
Proof.
  induction s as [|a s IH]; [done|].
  intros [Ha Hs]%CommaFree_String. simpl.
  destruct (Ascii.eqb_spec a ","); [done|]. by rewrite IH.
Qed.

Lemma Split_piece_comma (s rest : string) :
  CommaFree s ->
  strings.Split (s ++ "," ++ rest)%string "," = s :: strings.Split rest ",".
Proof.
  induction s as [|a s IH]; [done|].
  intros [Ha Hs]%CommaFree_String. simpl.
  destruct (Ascii.eqb_spec a ","); [done|]. by rewrite (IH Hs).
Qed.

Lemma Split_Join (names : list string) :
  names <> [] -> Forall CommaFree names ->
  strings.Split (strings.Join names ",") "," = names.
Proof.
  intros Hne Hall. induction Hall as [|name names Hname Hall IH]; [done|].
  destruct names as [|name' names].
  - simpl. by apply Split_comma_free.
  - change (strings.Join (name :: name' :: names) ",")
      with (name ++ "," ++ strings.Join (name' :: names) ",")%string.
    rewrite (Split_piece_comma _ _ Hname). by rewrite IH.
Qed.

Lemma Join_not_empty (name : string) (names : list string) (sep : string) :
  name <> "" -> strings.Join (name :: names) sep <> "".
Proof.
  intros Hname. destruct names as [|name' names]; [done|].
  change (strings.Join (name :: name' :: names) sep)
    with (name ++ sep ++ strings.Join (name' :: names) sep)%string.
  by destruct name.
Qed.

(** The line that the namespace report prints for the namespaces flag can
    be handed back through K8S_SEARCH_NAMESPACES: for names that are not
    empty, hold no comma and are left alone by [TrimSpace], as the names of
    namespaces are, splitting the joined line gives the list back. *)
Theorem flag_line_round_trip (TrimSpace : string -> string) (names : list string) :
  names <> [] ->
  Forall (fun name => name <> "" /\ CommaFree name /\ TrimSpace name = name) names ->
  main.defaultNamespaces TrimSpace (strings.Join names ",") = names.
Proof.
  intros Hne Hall. unfold main.defaultNamespaces.
  destruct names as [|name names]; [done|].
  assert (strings.Join (name :: names) "," <> "") as Hline.
  { apply Join_not_empty. by apply Forall_cons_1 in Hall as [[? _] _]. }
  destruct (String.eqb_spec (strings.Join (name :: names) ",") ""); [done|]. simpl negb.
  cbv iota. rewrite Split_Join; [|done|].
  - rewrite <- (list_fmap_id (name :: names)) at 2. apply list_fmap_ext.
    intros i x Hx. apply list_elem_of_lookup_2 in Hx.
    rewrite Forall_forall in Hall. by apply Hall.
  - eapply Forall_impl; [exact Hall|]. by intros x (_ & ? & _).
Qed.

Lemma flag_line_round_trip_witness :
  main.defaultNamespaces Sample.trimSpace (strings.Join ["default"; "kube-system"] ",")
  = ["default"; "kube-system"].
Proof.
  apply (flag_line_round_trip Sample.trimSpace ["default"; "kube-system"]);
    [discriminate|].
  repeat constructor; try discriminate;
    (intros (before & after & H);
     repeat (destruct before as [|? before]; simpl in H; [discriminate|];
             injection H as _ H);
     by destruct before).
Defined.

Lemma length_Split (s : string) (sep : ascii) :
  length (strings.Split s sep)
  = S (length (filter (eq sep) (String.list_ascii_of_string s))).
Proof.
  induction s as [|a s IH]; [done|].
  simpl. rewrite filter_cons.
  destruct (Ascii.eqb_spec a sep) as [->|Hne].
  - rewrite decide_True by done. simpl. by rewrite IH.
  - rewrite decide_False by congruence.
    pose proof (Split_nonempty s sep).
    destruct (strings.Split s sep); [done|]. simpl in *. done.
Qed.

(** Any value of K8S_SEARCH_NAMESPACES but the empty one switches the
    discovery of namespaces off: the default of the namespaces flag then
    has one entry more than the value has commas, empty entries included,
    and the entry points search that list as it is. With the empty value
    the default is the empty list. *)
Theorem namespaces_from_environment (TrimSpace : string -> string)
    (envNamespaces : string) :
  (envNamespaces <> "" ->
   length (main.defaultNamespaces TrimSpace envNamespaces)
   = S (length (filter (eq ","%char) (String.list_ascii_of_string envNamespaces)))
   /\ forall w kubeconfigPath,
       cmd.discoverNamespaces w kubeconfigPath
         (main.defaultNamespaces TrimSpace envNamespaces)
       = main.defaultNamespaces TrimSpace envNamespaces)
  /\ main.defaultNamespaces TrimSpace "" = [].
Proof.
  split; [|done]. intros Hne. unfold main.defaultNamespaces.
  destruct (String.eqb_spec envNamespaces ""); [done|]. simpl negb. cbv iota.
  assert (length (map TrimSpace (strings.Split envNamespaces ","))
          = S (length (filter (eq ","%char) (String.list_ascii_of_string envNamespaces))))
    as Hlen.
  { by rewrite length_map, length_Split. }
  split; [done|]. intros w kubeconfigPath. unfold cmd.discoverNamespaces.
  by rewrite Hlen.
Qed.

Lemma namespaces_from_environment_witness :
  length (main.defaultNamespaces Sample.trimSpace " default, ,,shop ") = 4%nat
  /\ main.defaultNamespaces Sample.trimSpace " default, ,,shop "
     = ["default"; ""; ""; "shop"].
Proof.
  split; [|reflexivity].
  apply (proj1 (namespaces_from_environment Sample.trimSpace " default, ,,shop ")).
  discriminate.
Defined.

(** ** The context table *)

Lemma rangeContextRows_fmap currentContext contexts rows :
  cmd.rangeContextRows currentContext contexts rows
  = rows ++ ((fun contextName =>
                (contextName, if String.eqb contextName currentContext then "*" else ""))
             <$> contexts).
Proof.
  revert rows. induction contexts as [|contextName contexts IH]; intros rows; simpl.
  - by rewrite app_nil_r.
  - by rewrite IH, <- app_assoc.
Qed.

Lemma marked_rows_count (currentContext : string) (contexts : list string) :
  NoDup contexts ->
  length (filter (fun row : string * string => row.2 = "*")
            ((fun contextName =>
                (contextName, if String.eqb contextName currentContext then "*" else ""))
             <$> contexts))
  = if decide (currentContext ∈ contexts) then 1%nat else 0%nat.
Proof.
  induction 1 as [|contextName contexts Hnotin Hnodup IH]; [done|].
  rewrite fmap_cons, filter_cons. simpl.
  destruct (String.eqb_spec contextName currentContext) as [->|Hne].
  - rewrite decide_True by done. simpl. rewrite IH.
    rewrite decide_False by done. by rewrite decide_True by by left.
  - rewrite decide_False by done. rewrite IH.
    destruct (decide (currentContext ∈ contexts)) as [Hin|Hnin].
    + by rewrite decide_True by by right.
    + rewrite decide_False; [done|].
      intros [?|?]%elem_of_cons; congruence.
Qed.

(** The context table. For a kubeconfig with contexts, [ListK8sContexts]
    prints one row for each context, in order, and marks a row with a star
    exactly when its context is the current one. The names of the contexts
    being distinct, one row is marked when the current context is among
    them and none otherwise. *)
Theorem context_table_marks_current (w : World.t) (kubeconfigPath : string)
    (config : Config.t) :
  LoadKubeConfig w kubeconfigPath = (Some config, None) ->
  GetContexts config <> [] ->
  NoDup (GetContexts config) ->
  exists rows,
    cmd.ListK8sContexts w kubeconfigPath = (Some rows, None)
    /\ rows.*1 = GetContexts config
    /\ (forall contextName mark,
           (contextName, mark) ∈ rows ->
           (mark = "*" /\ contextName = Config.CurrentContext config)
           \/ (mark = "" /\ contextName <> Config.CurrentContext config))
    /\ length (filter (fun row : string * string => row.2 = "*") rows)
       = if decide (Config.CurrentContext config ∈ GetContexts config)
         then 1%nat else 0%nat.
Proof.
  intros Hload Hne Hnodup. unfold cmd.ListK8sContexts. rewrite Hload.
  destruct (GetContexts config) as [|c contexts] eqn:Hcontexts; [done|].
  change (length (c :: contexts) =? 0)%nat with false. cbv iota.
  rewrite rangeContextRows_fmap, app_nil_l.
  eexists. split; [reflexivity|]. split; [|split].
  - generalize (c :: contexts). intros l. induction l as [|x l IH]; [done|].
    rewrite !fmap_cons. simpl. by rewrite IH.
  - intros contextName mark Hin.
    apply list_elem_of_fmap in Hin as (name & Heq & _). simplify_eq.
    destruct (String.eqb_spec name (Config.CurrentContext config)); [by left|by right].
  - by apply marked_rows_count.
Qed.

Lemma context_table_marks_current_witness :
  exists rows,
    cmd.ListK8sContexts Sample.world "/kube/config" = (Some rows, None)
    /\ rows.*1 = GetContexts Sample.config.
Proof.
  destruct (context_table_marks_current Sample.world "/kube/config" Sample.config
              eq_refl ltac:(discriminate)) as (rows & H1 & H2 & _).
  - repeat constructor; rewrite ?elem_of_cons, ?elem_of_nil; intros H;
      repeat destruct H as [H|H]; discriminate || done.
  - exists rows. split; [exact H1|exact H2].
Defined.

(** ** The owner column *)

Lemma prefix_append (s rest : string) : String.prefix s (s ++ rest)%string = true.
Proof. apply prefix_app. by exists rest. Qed.

Lemma prefix_refl (s : string) : String.prefix s s = true.
Proof.
  apply prefix_app. exists "".
  induction s as [|a s IH]; [done|].
  change (String a s +:+ "") with (String a (s +:+ "")). by rewrite <- IH.
Qed.

Lemma ownerInfoAllContexts_with_client w kubeconfigPath contextName nsName client pod :
  NewK8sClient w kubeconfigPath contextName [] = (Some client, None) ->
  cmd.ownerInfoAllContexts w kubeconfigPath contextName nsName pod
  = cmd.ownerInfo client pod.
Proof.
  intros Hclient.
  destruct (NewK8sClient_keeps w kubeconfigPath contextName []) as [Hkeeps _].
  destruct (Hkeeps client Hclient) as [_ Hother].
  unfold cmd.ownerInfoAllContexts, cmd.ownerInfo. by rewrite Hother.
Qed.

(** The owner column of the result tables. It begins with the owner name of
    the pod, and is that name alone unless the owner is a ReplicaSet whose
    deployment is resolved. For every result an aggregate search returns,
    the client of its context can be built again, so the aggregate commands
    show in that column what the single-context commands show with the
    client of that context. *)
Theorem owner_column_of_results (w : World.t) (kubeconfigPath query : string)
    (namespaces : list string) :
  (forall client pod,
      String.prefix (PodInfo.OwnerName pod) (cmd.ownerInfo client pod) = true
      /\ (PodInfo.OwnerKind pod <> "ReplicaSet" ->
          cmd.ownerInfo client pod = PodInfo.OwnerName pod)
      /\ (snd (GetDeploymentByReplicaSet client (PodInfo.Namespace pod)
                 (PodInfo.OwnerName pod)) <> None ->
          cmd.ownerInfo client pod = PodInfo.OwnerName pod))
  /\ (forall r,
         r ∈ elems (fst (SearchByIPAllContexts w kubeconfigPath query namespaces)) ->
         exists client,
           NewK8sClient w kubeconfigPath (SearchResultWithContext.Context r) []
           = (Some client, None)
           /\ forall pod,
               cmd.ownerInfoAllContexts w kubeconfigPath
                 (SearchResultWithContext.Context r)
                 (SearchResultWithContext.Namespace r) pod
               = cmd.ownerInfo client pod)
  /\ (forall r,
         r ∈ elems (fst (SearchByNameAllContexts w kubeconfigPath query namespaces)) ->
         exists client,
           NewK8sClient w kubeconfigPath (PodResultWithContext.Context r) []
           = (Some client, None)
           /\ forall pod,
               cmd.ownerInfoAllContexts w kubeconfigPath
                 (PodResultWithContext.Context r)
                 (PodResultWithContext.Namespace r) pod
               = cmd.ownerInfo client pod).
Proof.
  split; [|split].
  - intros client pod. unfold cmd.ownerInfo.
    destruct (String.eqb_spec (PodInfo.OwnerKind pod) "ReplicaSet") as [Hkind|Hkind].
    + destruct (GetDeploymentByReplicaSet client _ _) as [deploymentName [err|]]; simpl.
      * split; [apply prefix_refl|]. by split.
      * split; [apply prefix_append|]. by split.
    + split; [apply prefix_refl|]. by split.
  - intros r Hin.
    destruct (LoadKubeConfig_cases w kubeconfigPath) as [[config Hload]|[err Hload]].
    + rewrite (SearchByIPAllContexts_loaded _ _ _ _ _ Hload) in Hin. simpl in Hin.
      apply elem_of_contextResultsByIP in Hin as (client & Hclient & _).
      exists client. split; [done|]. intros pod.
      by apply ownerInfoAllContexts_with_client.
    + unfold SearchByIPAllContexts in Hin. rewrite Hload in Hin.
      by apply elem_of_nil in Hin.
  - intros r Hin.
    destruct (LoadKubeConfig_cases w kubeconfigPath) as [[config Hload]|[err Hload]].
    + rewrite (SearchByNameAllContexts_loaded _ _ _ _ _ Hload) in Hin. simpl in Hin.
      apply elem_of_contextResultsByName in Hin as (client & Hclient & _).
      exists client. split; [done|]. intros pod.
      by apply ownerInfoAllContexts_with_client.
    + unfold SearchByNameAllContexts in Hin. rewrite Hload in Hin.
      by apply elem_of_nil in Hin.
Qed.

Lemma owner_column_of_results_witness :
  cmd.ownerInfoAllContexts Sample.world "/kube/config" "east" "default"
    (newPodInfo Sample.web_pod)
  = "nginx-deployment-xyz (Deployment: nginx-deployment)"
  /\ String.prefix "nginx-deployment-xyz"
       (cmd.ownerInfo (Sample.eastClient []) (newPodInfo Sample.web_pod)) = true.
Proof.
  split; [reflexivity|].
  apply (proj1 (owner_column_of_results Sample.world "/kube/config" "10.0.0.1" [])
           (Sample.eastClient []) (newPodInfo Sample.web_pod)).
Defined.

(** ** Narrowing a name query *)

Lemma string_append_assoc (a b c : string) :
  ((a ++ b) ++ c = a ++ (b ++ c))%string.
Proof.
  induction a as [|x a IH]; [done|].
  change (String x a +:+ b) with (String x (a +:+ b)).
  change (String x (a +:+ b) +:+ c) with (String x ((a +:+ b) +:+ c)).
  by rewrite IH.
Qed.

Lemma IsSubstring_trans (a b c : string) :
  IsSubstring a b -> IsSubstring b c -> IsSubstring a c.
Proof.
  intros (before1 & after1 & ->) (before2 & after2 & ->).
  exists (before2 ++ before1)%string, (after1 ++ after2)%string.
  by rewrite !string_append_assoc.
Qed.

Lemma filter_narrower_sublist {A : Type} (P Q : A -> Prop)
    `{forall x, Decision (P x)} `{forall x, Decision (Q x)} (l : list A) :
  (forall x, Q x -> P x) -> filter Q l `sublist_of` filter P l.
Proof.
  intros Himpl. induction l as [|x l IH]; [done|].
  rewrite !filter_cons.
  destruct (decide (Q x)) as [HQ|HQ].
  - rewrite decide_True by by apply Himpl. by constructor.
  - destruct (decide (P x)); [by constructor|done].
Qed.

(** A longer name query finds less. When one query occurs in another, the
    name search fails for both or for neither, with the same error, and the
    pods found with the longer query are a sublist, in order, of the pods
    found with the shorter one. *)
Theorem narrower_name_query_finds_less (c : K8sClient.t) (shorter longer : string) :
  IsSubstring shorter longer ->
  snd (SearchByName c longer) = snd (SearchByName c shorter)
  /\ elems (fst (SearchByName c longer)) `sublist_of` elems (fst (SearchByName c shorter)).
Proof.
  intros Hsub. unfold SearchByName.
  pose proof (rangeNamespacesByName_error_indep (K8sClient.Clientset c) longer shorter
                (K8sClient.Namespaces c) [] []) as Herr.
  split; [done|].
  destruct (rangeNamespacesByName _ longer _ []) as [pods [err|]] eqn:Hlonger.
  - rewrite (rangeNamespacesByName_error_nil _ _ _ _ _ _ Hlonger). simpl.
    apply sublist_nil_l.
  - assert (OnlyPermissionPodFailures (K8sClient.Clientset c) (K8sClient.Namespaces c))
      as Hperm.
    { eapply rangeNamespacesByName_error. by rewrite Hlonger. }
    rewrite (rangeNamespacesByName_ok _ _ _ [] Hperm) in Hlonger.
    rewrite (rangeNamespacesByName_ok _ _ _ [] Hperm). simplify_eq. simpl.
    apply fmap_sublist, filter_narrower_sublist.
    intros pod. by apply IsSubstring_trans.
Qed.

Lemma narrower_name_query_finds_less_witness :
  elems (fst (SearchByName (Sample.eastClient ["default"; "audit"]) "nginx"))
    `sublist_of` elems (fst (SearchByName (Sample.eastClient ["default"; "audit"]) "n")).
Proof.
  apply (narrower_name_query_finds_less (Sample.eastClient ["default"; "audit"])
           "n" "nginx").
  by exists "", "ginx".
Defined.
